(** * Trinity IDE: the request-orchestration workflow

    A shallow embedding of the orchestration code of the Trinity chat
    front end: the model gateway [TrinityService] (services/geminiService),
    the component state and handlers of [ProjectView]
    (components/ProjectView.tsx), and the callbacks [App] passes to it.

    JavaScript strings are sequences of UTF-16 code units; a code unit is a
    number [N].  The remote model API, [Math.random] and [Date.now] are an
    environment [Env] the handlers draw from; component state, the activity
    log, the requests sent and the console live in a [World] threaded through
    a state-and-exception monad.  A handler runs to completion: no other
    event of the page is interleaved with a turn. *)

From Stdlib Require Import String Ascii QArith_base.
From stdpp Require Import list.

Set Warnings "-register-all".

(** ** JavaScript strings *)

Definition jsstring := list N.

(** A literal of the source, code unit by code unit. *)
Definition lit (s : string) : jsstring :=
  map N_of_ascii (list_ascii_of_string s).
Arguments lit s%_string : simpl never.

(** A literal of the source that contains double quotes, written here with
    apostrophes in their place. *)
Definition quoted (s : string) : jsstring :=
  map (fun c => if (c =? 39)%N then 34%N else c) (lit s).
Arguments quoted s%_string : simpl never.

Definition LF : jsstring := [10%N].

Definition str_eqb (a b : jsstring) : bool := bool_decide (a = b).

Section Strings.
Local Open Scope N_scope.

(** [strip_prefix p s] is the rest of [s] after the prefix [p], if [s]
    starts with [p]. *)
Fixpoint strip_prefix (p s : jsstring) : option jsstring :=
  match p, s with
  | [], _ => Some s
  | _ :: _, [] => None
  | a :: p', b :: s' => if a =? b then strip_prefix p' s' else None
  end.

(** The leftmost occurrence of [needle] in [s]: the text before it and the
    text after it ([String.prototype.indexOf], and the way a regular
    expression finds a literal). *)
Fixpoint find_sub (needle s : jsstring) : option (jsstring * jsstring) :=
  match strip_prefix needle s with
  | Some rest => Some ([], rest)
  | None =>
      match s with
      | [] => None
      | c :: s' =>
          match find_sub needle s' with
          | Some (before, rest) => Some (c :: before, rest)
          | None => None
          end
      end
  end.

(** [String.prototype.includes]. *)
Definition includes (s needle : jsstring) : bool :=
  match find_sub needle s with Some _ => true | None => false end.

(** [String.prototype.split] with a separator of one code unit: never the
    empty array, and one empty segment on the empty string. *)
Fixpoint split (sep : N) (s : jsstring) : list jsstring :=
  match s with
  | [] => [[]]
  | c :: s' =>
      if c =? sep then [] :: split sep s'
      else match split sep s' with
           | seg :: segs => (c :: seg) :: segs
           | [] => [[c]]
           end
  end.

(** [Array.prototype.pop]: the last element, [undefined] on the empty
    array. *)
Fixpoint pop {A} (l : list A) : option A :=
  match l with
  | [] => None
  | [x] => Some x
  | _ :: l' => pop l'
  end.

(** [Array.prototype.join]. *)
Fixpoint join (sep : jsstring) (l : list jsstring) : jsstring :=
  match l with
  | [] => []
  | [x] => x
  | x :: l' => x ++ sep ++ join sep l'
  end.

(** White space and line terminators of ECMAScript, as
    [String.prototype.trim] removes them. *)
Definition is_white_space (c : N) : bool :=
  (c =? 9) || (c =? 10) || (c =? 11) || (c =? 12) || (c =? 13) || (c =? 32)
  || (c =? 160) || (c =? 5760) || ((8192 <=? c) && (c <=? 8202))
  || (c =? 8232) || (c =? 8233) || (c =? 8239) || (c =? 8287)
  || (c =? 12288) || (c =? 65279).

Fixpoint trim_start (s : jsstring) : jsstring :=
  match s with
  | c :: s' => if is_white_space c then trim_start s' else s
  | [] => []
  end.

Definition trim (s : jsstring) : jsstring :=
  rev (trim_start (rev (trim_start s))).

(** Case folding of a regular expression with the [i] flag and without the
    [u] flag, on a pattern of ASCII letters: a code unit matches a pattern
    letter iff they are the same ASCII letter up to case (a code unit above
    127 never folds onto an ASCII one). *)
Definition fold_case (c : N) : N :=
  if (65 <=? c) && (c <=? 90) then c + 32 else c.

End Strings.

(** ** JSON values and [JSON.parse] *)

(** The values [JSON.parse] produces, and [undefined] for a property that is
    not there.  A number is kept as its lexeme. *)
Inductive JsValue :=
| JUndefined
| JNull
| JBool (b : bool)
| JNumber (lexeme : jsstring)
| JString (s : jsstring)
| JArray (elements : list JsValue)
| JObject (members : list (jsstring * JsValue)).

Section JSON.
Local Open Scope N_scope.

Definition is_json_ws (c : N) : bool :=
  (c =? 9) || (c =? 10) || (c =? 13) || (c =? 32).

Fixpoint skip_ws (s : jsstring) : jsstring :=
  match s with
  | c :: s' => if is_json_ws c then skip_ws s' else s
  | [] => []
  end.

Definition is_digit (c : N) : bool := (48 <=? c) && (c <=? 57).

Definition hex_digit (c : N) : option N :=
  if is_digit c then Some (c - 48)
  else if (65 <=? c) && (c <=? 70) then Some (c - 55)
  else if (97 <=? c) && (c <=? 102) then Some (c - 87)
  else None.

Definition hex4 (a b c d : N) : option N :=
  match hex_digit a, hex_digit b, hex_digit c, hex_digit d with
  | Some x, Some y, Some z, Some w => Some (((x * 16 + y) * 16 + z) * 16 + w)
  | _, _, _, _ => None
  end.

(** The single-character escapes of a JSON string. *)
Definition unescape (e : N) : option N :=
  if e =? 34 then Some 34          (* quote *)
  else if e =? 92 then Some 92     (* backslash *)
  else if e =? 47 then Some 47     (* slash *)
  else if e =? 98 then Some 8      (* b: backspace *)
  else if e =? 102 then Some 12    (* f: form feed *)
  else if e =? 110 then Some 10    (* n: line feed *)
  else if e =? 114 then Some 13    (* r: carriage return *)
  else if e =? 116 then Some 9     (* t: tab *)
  else None.

Definition push {A B} (a : A) (r : option (list A * B)) : option (list A * B) :=
  match r with
  | Some (l, rest) => Some (a :: l, rest)
  | None => None
  end.

(** A JSON string after its opening quote: the decoded text and what
    follows the closing quote. *)
Fixpoint read_string (s : jsstring) : option (jsstring * jsstring) :=
  match s with
  | [] => None
  | c :: r =>
      if c =? 34 then Some ([], r)
      else if c =? 92 then
        match r with
        | [] => None
        | e :: r1 =>
            if e =? 117 then
              match r1 with
              | h1 :: h2 :: h3 :: h4 :: r2 =>
                  match hex4 h1 h2 h3 h4 with
                  | Some u => push u (read_string r2)
                  | None => None
                  end
              | _ => None
              end
            else
              match unescape e with
              | Some u => push u (read_string r1)
              | None => None
              end
        end
      else if c <? 32 then None
      else push c (read_string r)
  end.

Fixpoint read_digits (s : jsstring) : jsstring * jsstring :=
  match s with
  | c :: s' =>
      if is_digit c then let (ds, rest) := read_digits s' in (c :: ds, rest)
      else ([], s)
  | [] => ([], [])
  end.

(** The integer part of a JSON number: [0], or a digit from 1 to 9 and
    more digits. *)
Definition read_int (s : jsstring) : option (jsstring * jsstring) :=
  match s with
  | d :: r =>
      if d =? 48 then Some ([d], r)
      else if is_digit d then let (ds, rest) := read_digits r in Some (d :: ds, rest)
      else None
  | [] => None
  end.

Definition read_frac (s : jsstring) : option (jsstring * jsstring) :=
  match s with
  | c :: r =>
      if c =? 46 then
        match read_digits r with
        | ([], _) => None
        | (ds, rest) => Some (c :: ds, rest)
        end
      else Some ([], s)
  | [] => Some ([], [])
  end.

Definition read_exp (s : jsstring) : option (jsstring * jsstring) :=
  match s with
  | c :: r =>
      if (c =? 69) || (c =? 101) then
        let (sign, r1) :=
          match r with
          | g :: r' => if (g =? 43) || (g =? 45) then ([g], r') else ([], r)
          | [] => ([], r)
          end in
        match read_digits r1 with
        | ([], _) => None
        | (ds, rest) => Some (c :: sign ++ ds, rest)
        end
      else Some ([], s)
  | [] => Some ([], [])
  end.

Definition read_number (s : jsstring) : option (jsstring * jsstring) :=
  let (sign, s1) :=
    match s with
    | c :: r => if c =? 45 then ([c], r) else ([], s)
    | [] => ([], s)
    end in
  match read_int s1 with
  | Some (i, s2) =>
      match read_frac s2 with
      | Some (f, s3) =>
          match read_exp s3 with
          | Some (e, s4) => Some (sign ++ i ++ f ++ e, s4)
          | None => None
          end
      | None => None
      end
  | None => None
  end.

Definition read_literal (word : jsstring) (v : JsValue) (s : jsstring)
  : option (JsValue * jsstring) :=
  match strip_prefix word s with
  | Some rest => Some (v, rest)
  | None => None
  end.

(** A JSON value, the elements of an array after its bracket, the members of
    an object after its brace.  Every call consumes input before it
    recurses, so fuel above twice the length of the text is never
    exhausted. *)
Fixpoint read_value (fuel : nat) (s : jsstring) : option (JsValue * jsstring) :=
  match fuel with
  | O => None
  | S f =>
      match skip_ws s with
      | [] => None
      | c :: r =>
          if c =? 123 then
            match skip_ws r with
            | c' :: r' =>
                if c' =? 125 then Some (JObject [], r')
                else match read_members f r with
                     | Some (ms, rest) => Some (JObject ms, rest)
                     | None => None
                     end
            | [] => None
            end
          else if c =? 91 then
            match skip_ws r with
            | c' :: r' =>
                if c' =? 93 then Some (JArray [], r')
                else match read_elements f r with
                     | Some (vs, rest) => Some (JArray vs, rest)
                     | None => None
                     end
            | [] => None
            end
          else if c =? 34 then
            match read_string r with
            | Some (t, rest) => Some (JString t, rest)
            | None => None
            end
          else if c =? 110 then read_literal (lit "null") JNull (c :: r)
          else if c =? 116 then read_literal (lit "true") (JBool true) (c :: r)
          else if c =? 102 then read_literal (lit "false") (JBool false) (c :: r)
          else
            match read_number (c :: r) with
            | Some (n, rest) => Some (JNumber n, rest)
            | None => None
            end
      end
  end
with read_elements (fuel : nat) (s : jsstring) : option (list JsValue * jsstring) :=
  match fuel with
  | O => None
  | S f =>
      match read_value f s with
      | Some (v, r) =>
          match skip_ws r with
          | c :: r' =>
              if c =? 44 then push v (read_elements f r')
              else if c =? 93 then Some ([v], r')
              else None
          | [] => None
          end
      | None => None
      end
  end
with read_members (fuel : nat) (s : jsstring)
  : option (list (jsstring * JsValue) * jsstring) :=
  match fuel with
  | O => None
  | S f =>
      match skip_ws s with
      | q :: r =>
          if q =? 34 then
            match read_string r with
            | Some (k, r1) =>
                match skip_ws r1 with
                | c :: r2 =>
                    if c =? 58 then
                      match read_value f r2 with
                      | Some (v, r3) =>
                          match skip_ws r3 with
                          | d :: r4 =>
                              if d =? 44 then push (k, v) (read_members f r4)
                              else if d =? 125 then Some ([(k, v)], r4)
                              else None
                          | [] => None
                          end
                      | None => None
                      end
                    else None
                | [] => None
                end
            | None => None
            end
          else None
      | [] => None
      end
  end.

(** [JSON.parse]: the value of the whole text, [None] where it throws a
    SyntaxError. *)
Definition JSON_parse (text : jsstring) : option JsValue :=
  match read_value (2 * length text + 2) text with
  | Some (v, rest) =>
      match skip_ws rest with
      | [] => Some v
      | _ :: _ => None
      end
  | None => None
  end.

(** The value of the last member named [k]: a later duplicate overrides an
    earlier one. *)
Fixpoint last_member (k : jsstring) (ms : list (jsstring * JsValue)) : option JsValue :=
  match ms with
  | [] => None
  | (k', v) :: ms' =>
      match last_member k ms' with
      | Some v' => Some v'
      | None => if str_eqb k' k then Some v else None
      end
  end.

(** Property access [v.k] for the property names the parser reads
    ([action], [fileName], [content], [description]: no prototype has them).
    [None] is the TypeError of reading a property of [null] or
    [undefined]. *)
Definition get_property (v : JsValue) (k : jsstring) : option JsValue :=
  match v with
  | JUndefined | JNull => None
  | JObject ms => Some (default JUndefined (last_member k ms))
  | _ => Some JUndefined
  end.

(** Strict equality [v === s] with a string. *)
Definition strict_eq_string (v : JsValue) (s : jsstring) : bool :=
  match v with
  | JString t => str_eqb t s
  | _ => false
  end.

(** Whether [ToString(v)], the conversion a template literal applies to its
    holes, completes.  On an object it calls the [toString] method and then
    [valueOf]: an object that has a member named [toString] has a value
    there that cannot be called, and [valueOf] (a member as little callable,
    or [Object.prototype.valueOf], which returns the object) yields no
    primitive either, so the conversion raises a TypeError; without such a
    member [Object.prototype.toString] answers.  On an array
    [Array.prototype.join] converts every element that is neither [null] nor
    [undefined].  Every other value has a string. *)
Fixpoint ToString_completes (v : JsValue) : bool :=
  match v with
  | JArray elements => forallb ToString_completes elements
  | JObject members =>
      negb (existsb (fun m => str_eqb (fst m) (lit "toString")) members)
  | _ => true
  end.

End JSON.

(** ** The data model (types.ts)

    Each interface is a record in a module of its name, so that the fields
    keep the names of the source.  The fields of a [CodeProposal] hold what
    [JSON.parse] returned for them; a file's [content] is copied from
    there. *)

Inductive AgentRole :=
| Conductor | ResearchLead | SpecializedResearcher | Coder | Validator | System.

Module LogType.
Inductive t := info | success | warning | error.
End LogType.

Inductive Role := user | assistant | system.

Inductive Mode := precision | speed.

Module ProjectFile.
Record t := mk { name : jsstring; content : JsValue; language : jsstring }.
End ProjectFile.

Module Project.
Record t := mk
    { id : jsstring; name : jsstring; files : list ProjectFile.t; createdAt : N }.
End Project.

Module ActivityLog.
Record t := mk
    { id : jsstring; timestamp : N; agent : AgentRole; message : jsstring;
      type : LogType.t }.
End ActivityLog.

Module CodeProposal.
Record t := mk { fileName : JsValue; content : JsValue; description : JsValue }.
End CodeProposal.

Module ChatMessage.
Record t := mk
    { id : jsstring; role : Role; content : jsstring;
      pendingChange : option CodeProposal.t }.
End ChatMessage.

Module SystemConfig.
Record t := mk
    { conductorModel : jsstring; researchModel : jsstring; coderModel : jsstring;
      validatorModel : jsstring; searchEngineId : option jsstring }.
End SystemConfig.

(** ** The remote model API (@google/genai) *)

Module Source.
Record t := mk { title : jsstring; uri : jsstring }.
End Source.

(** The text of a request.  The review prompt is the template
    [Review this code for correctness and adherence to: ${requirements}
    Code: ${code}] with its two holes kept as the values interpolated; it
    exists only for values that have a string ([review_converts]). *)
Inductive Contents :=
| Text (t : jsstring)
| ReviewTemplate (requirements code : JsValue).

Inductive Tool := googleSearch.

Module GenConfig.
Record t := mk
    { temperature : option Q;
      systemInstruction : option jsstring;
      thinkingBudget : option N;        (* thinkingConfig.thinkingBudget *)
      tools : list Tool }.
End GenConfig.

Module Request.
Record t := mk { model : jsstring; contents : Contents; config : GenConfig.t }.
End Request.

Module Response.
Record GroundingChunk := chunk { web : option Source.t }.
Record GroundingMetadata := metadata { groundingChunks : option (list GroundingChunk) }.
Record Candidate := candidate { groundingMetadata : option GroundingMetadata }.
Record t := mk { text : option jsstring; candidates : option (list Candidate) }.
End Response.

(** What is thrown: an object with a [message]. *)
Inductive JsError := Error (message : jsstring).

Definition message (e : JsError) : jsstring := let (m) := e in m.

Inductive Outcome := Resolved (r : Response.t) | Rejected (e : JsError).

(** The environment of a run: the outcome of the n-th request sent, the text
    of the n-th [Math.random().toString()], the n-th reading of [Date.now()],
    and the message the engine gives its own TypeError. *)
Record Env := mkEnv
  { generateContent : nat -> Request.t -> Outcome;
    Math_random : nat -> jsstring;
    Date_now : nat -> N;
    typeErrorMessage : jsstring }.

(** ** The state of the application

    [project], [config] and [activity] are state of [App], which
    [ProjectView] reads as props and changes through [onUpdateProject] and
    [onAddLog]; the fields from [messages] to [researchSources] are the
    [useState] cells of [ProjectView]; the rest is the host: the requests
    sent so far, the console, and how often randomness and the clock were
    read.  A [validationReport] of [null] or [undefined] is [None]. *)
Record World := mkWorld
  { project : Project.t;
    config : SystemConfig.t;
    activity : list ActivityLog.t;
    messages : list ChatMessage.t;
    inputValue : jsstring;
    isProcessing : bool;
    aiMode : Mode;
    pendingProposal : option CodeProposal.t;
    validationReport : option jsstring;
    researchSources : list Source.t;
    requests : list Request.t;
    console : list jsstring;
    randoms : nat;
    clock : nat }.

(** ** Computations: state and exceptions *)

Inductive Completion (A : Type) :=
| Normal (a : A)
| Thrown (e : JsError).
Arguments Normal {A} a.
Arguments Thrown {A} e.

Definition M (A : Type) : Type := World -> Completion A * World.

Definition ret {A} (a : A) : M A := fun w => (Normal a, w).

Definition bind {A B} (m : M A) (k : A -> M B) : M B :=
  fun w =>
    match m w with
    | (Normal a, w') => k a w'
    | (Thrown e, w') => (Thrown e, w')
    end.

Definition throw {A} (e : JsError) : M A := fun w => (Thrown e, w).

(** [try { m } catch (e) { h e }]. *)
Definition try_catch {A} (m : M A) (h : JsError -> M A) : M A :=
  fun w =>
    match m w with
    | (Normal a, w') => (Normal a, w')
    | (Thrown e, w') => h e w'
    end.

(** [try { m } finally { f }], for an [f] that completes normally or
    throws over the completion of [m]. *)
Definition try_finally {A} (m : M A) (f : M unit) : M A :=
  fun w =>
    let (c, w') := m w in
    match f w' with
    | (Normal _, w'') => (c, w'')
    | (Thrown e, w'') => (Thrown e, w'')
    end.

Definition get : M World := fun w => (Normal w, w).
Definition modify (f : World -> World) : M unit := fun w => (Normal tt, f w).

Declare Scope js_scope.
Delimit Scope js_scope with js.
Notation "x <- m ;; k" := (bind m (fun x => k))
  (at level 100, m at next level, right associativity) : js_scope.
Notation "m ;; k" := (bind m (fun _ => k))
  (at level 100, right associativity) : js_scope.
Local Open Scope js_scope.

(** The state setters.  Each one reads the record once. *)
Definition with_project (x : Project.t) (w : World) : World :=
  let 'mkWorld _ c a m v b d q r s t o n k := w in
  mkWorld x c a m v b d q r s t o n k.
Definition with_activity (x : list ActivityLog.t) (w : World) : World :=
  let 'mkWorld p c _ m v b d q r s t o n k := w in
  mkWorld p c x m v b d q r s t o n k.
Definition with_messages (x : list ChatMessage.t) (w : World) : World :=
  let 'mkWorld p c a _ v b d q r s t o n k := w in
  mkWorld p c a x v b d q r s t o n k.
Definition with_inputValue (x : jsstring) (w : World) : World :=
  let 'mkWorld p c a m _ b d q r s t o n k := w in
  mkWorld p c a m x b d q r s t o n k.
Definition with_isProcessing (x : bool) (w : World) : World :=
  let 'mkWorld p c a m v _ d q r s t o n k := w in
  mkWorld p c a m v x d q r s t o n k.
Definition with_pendingProposal (x : option CodeProposal.t) (w : World) : World :=
  let 'mkWorld p c a m v b d _ r s t o n k := w in
  mkWorld p c a m v b d x r s t o n k.
Definition with_validationReport (x : option jsstring) (w : World) : World :=
  let 'mkWorld p c a m v b d q _ s t o n k := w in
  mkWorld p c a m v b d q x s t o n k.
Definition with_researchSources (x : list Source.t) (w : World) : World :=
  let 'mkWorld p c a m v b d q r _ t o n k := w in
  mkWorld p c a m v b d q r x t o n k.
Definition with_requests (x : list Request.t) (w : World) : World :=
  let 'mkWorld p c a m v b d q r s _ o n k := w in
  mkWorld p c a m v b d q r s x o n k.
Definition with_console (x : list jsstring) (w : World) : World :=
  let 'mkWorld p c a m v b d q r s t _ n k := w in
  mkWorld p c a m v b d q r s t x n k.
Definition with_randoms (x : nat) (w : World) : World :=
  let 'mkWorld p c a m v b d q r s t o _ k := w in
  mkWorld p c a m v b d q r s t o x k.
Definition with_clock (x : nat) (w : World) : World :=
  let 'mkWorld p c a m v b d q r s t o n _ := w in
  mkWorld p c a m v b d q r s t o n x.

Definition setMessages (f : list ChatMessage.t -> list ChatMessage.t) : M unit :=
  modify (fun w => with_messages (f (messages w)) w).
Definition setInputValue (v : jsstring) : M unit := modify (with_inputValue v).
Definition setIsProcessing (b : bool) : M unit := modify (with_isProcessing b).
Definition setPendingProposal (p : option CodeProposal.t) : M unit :=
  modify (with_pendingProposal p).
Definition setValidationReport (r : option jsstring) : M unit :=
  modify (with_validationReport r).
Definition setResearchSources (f : list Source.t -> list Source.t) : M unit :=
  modify (fun w => with_researchSources (f (researchSources w)) w).

Definition console_warn (s : jsstring) : M unit :=
  modify (fun w => with_console (console w ++ [s]) w).

(** [App.addLog]: [setActivity(prev => [...prev, log])]. *)
Definition addLog (l : ActivityLog.t) : M unit :=
  modify (fun w => with_activity (activity w ++ [l]) w).

(** [App.updateProject] replaces, in the list of projects, the one with the
    id of its argument; the view shows the active project, of which the
    argument is a copy with new files, so the [project] it is given next is
    the argument. *)
Definition updateProject (p : Project.t) : M unit := modify (with_project p).

(** JavaScript's [a || b] on a string that may be [undefined]. *)
Definition or_else (a : option jsstring) (b : jsstring) : jsstring :=
  match a with
  | Some (c :: s) => c :: s
  | _ => b
  end.

(** A string that may be [undefined], inside a template literal. *)
Definition interpolate (a : option jsstring) : jsstring :=
  default (lit "undefined") a.

(** [Array.prototype.findIndex]: the first index whose element satisfies
    [p], and -1 when there is none. *)
Fixpoint findIndex {A} (p : A -> bool) (l : list A) : Z :=
  match l with
  | [] => -1
  | x :: l' =>
      if p x then 0
      else let i := findIndex p l' in if (i <? 0)%Z then -1 else (i + 1)%Z
  end.

Section Trinity.

Variable env : Env.

Definition random_string : M jsstring :=
  fun w => (Normal (Math_random env (randoms w)), with_randoms (S (randoms w)) w).

Definition now : M N :=
  fun w => (Normal (Date_now env (clock w)), with_clock (S (clock w)) w).

(** The object literal of a log record:
    [{ id: Math.random().toString(), timestamp: Date.now(), agent, message, type }]. *)
Definition log_record (agent : AgentRole) (msg : jsstring) (type : LogType.t)
  : M ActivityLog.t :=
  id <- random_string ;;
  timestamp <- now ;;
  ret (ActivityLog.mk id timestamp agent msg type).

(** [ai.models.generateContent]: the request goes out and the environment
    answers or rejects. *)
Definition generate (req : Request.t) : M Response.t :=
  fun w =>
    let w' := with_requests (requests w ++ [req]) w in
    match generateContent env (length (requests w)) req with
    | Resolved r => (Normal r, w')
    | Rejected e => (Thrown e, w')
    end.

(** *** TrinityService (services/geminiService) *)

Definition isPrecision (mode : Mode) : bool :=
  match mode with precision => true | speed => false end.

Definition conduct_model (mode : Mode) (config : SystemConfig.t) : jsstring :=
  if isPrecision mode then SystemConfig.conductorModel config
  else lit "gemini-flash-lite-latest".

Definition systemInstruction (context : jsstring) : jsstring :=
  quoted "You are the 'Conductor' of the Trinity Agent System." ++ LF ++
  lit "      Current Workspace Context: " ++ context ++ LF ++
  lit "      " ++ LF ++
  lit "      Your goal is to fulfill user requests by orchestrating your sub-agents:" ++ LF ++
  lit "      1. Research Team: Used for technical grounding." ++ LF ++
  lit "      2. Coder: Synthesizes implementations." ++ LF ++
  lit "      3. Validator: Verifies logic." ++ LF ++
  LF ++
  lit "      When proposing a code change, you MUST respond with a JSON block in this exact format:" ++ LF ++
  lit "      ```json" ++ LF ++
  lit "      {" ++ LF ++
  quoted "        'action': 'propose_code'," ++ LF ++
  quoted "        'fileName': 'example.ts'," ++ LF ++
  quoted "        'content': 'the actual code'," ++ LF ++
  quoted "        'description': 'why this change was made'" ++ LF ++
  lit "      }" ++ LF ++
  lit "      ```" ++ LF ++
  lit "      Keep conversational text professional and concise.".

(** The [thinkingConfig] of [conduct]: a budget for the Gemini 3 and 2.5
    series in precision mode. *)
Definition thinkingBudget (precise : bool) (model : jsstring) : option N :=
  if precise && (includes model (lit "pro") || includes model (lit "gemini-3")
                 || includes model (lit "gemini-2.5"))
  then Some (if includes model (lit "pro") then 32768%N else 24576%N)
  else None.

Definition conduct_request (prompt context : jsstring) (mode : Mode)
    (config : SystemConfig.t) : Request.t :=
  let model := conduct_model mode config in
  Request.mk model (Text prompt)
    (GenConfig.mk (Some (7 # 10)%Q) (Some (systemInstruction context))
       (thinkingBudget (isPrecision mode) model) []).

Definition conduct (prompt context : jsstring) (mode : Mode)
    (onLog : ActivityLog.t -> M unit) (config : SystemConfig.t)
  : M (option jsstring) :=
  let model := conduct_model mode config in
  l <- log_record Conductor
         (lit "Initiating "
          ++ (if isPrecision mode then lit "High-Reasoning" else lit "High-Speed")
          ++ lit " orchestration via " ++ model ++ lit "...") LogType.info ;;
  onLog l ;;
  try_catch
    (response <- generate (conduct_request prompt context mode config) ;;
     ret (Response.text response))
    (fun error =>
       l <- log_record Conductor (lit "API Exception: " ++ message error)
              LogType.error ;;
       onLog l ;;
       throw error).

Record ResearchResult := mkResearch
  { text : option jsstring; sources : list Source.t }.

Definition research_request (query : jsstring) (config : SystemConfig.t) : Request.t :=
  Request.mk (SystemConfig.researchModel config)
    (Text (lit "Perform deep technical research for: " ++ query
           ++ lit ". Focus on implementation details, API patterns, and potential edge cases."))
    (GenConfig.mk None None None [googleSearch]).

(** [response.candidates?.[0]?.groundingMetadata?.groundingChunks
      ?.map(chunk => chunk.web).filter(Boolean) || []]. *)
Definition grounding_sources (response : Response.t) : list Source.t :=
  match
    match Response.candidates response with
    | Some (c :: _) =>
        match Response.groundingMetadata c with
        | Some g => Response.groundingChunks g
        | None => None
        end
    | _ => None
    end
  with
  | Some chunks => omap Response.web chunks
  | None => []
  end.

Definition research (query : jsstring) (config : SystemConfig.t)
    (onLog : ActivityLog.t -> M unit) : M ResearchResult :=
  l <- log_record ResearchLead
         (lit "Triggering technical search grounding for: " ++ query) LogType.info ;;
  onLog l ;;
  try_catch
    (response <- generate (research_request query config) ;;
     l <- log_record SpecializedResearcher
            (lit "Grounding complete. Key findings identified.") LogType.success ;;
     onLog l ;;
     ret (mkResearch (Response.text response) (grounding_sources response)))
    (fun _ =>
       ret (mkResearch
              (Some (lit "Research swarm was unable to reach the web. Proceeding with internal knowledge base."))
              [])).

Definition validate_request (code requirements : JsValue) (config : SystemConfig.t)
  : Request.t :=
  Request.mk (SystemConfig.validatorModel config)
    (ReviewTemplate requirements code)
    (GenConfig.mk (Some (1 # 10)%Q) None None []).

(** Whether the template literal of the review prompt can be evaluated:
    [${requirements}] and then [${code}] are converted to strings. *)
Definition review_converts (code requirements : JsValue) : bool :=
  ToString_completes requirements && ToString_completes code.

(** The template literal is evaluated inside the [try], before the request
    is made: a conversion that raises sends no request.  (The message of the
    TypeError is the engine's; the handler does not read it.) *)
Definition review_prompt (code requirements : JsValue) : M unit :=
  if review_converts code requirements then ret tt
  else throw (Error (lit "Cannot convert object to primitive value")).

Definition validateCode (code requirements : JsValue) (config : SystemConfig.t)
    (onLog : ActivityLog.t -> M unit) : M (option jsstring) :=
  l <- log_record Validator
         (lit "Performing logical validation on generated artifacts...") LogType.info ;;
  onLog l ;;
  try_catch
    (review_prompt code requirements ;;
     response <- generate (validate_request code requirements config) ;;
     ret (Response.text response))
    (fun _ =>
       ret (Some (lit "Validation node timed out. Manual review highly recommended."))).

(** *** ProjectView (components/ProjectView.tsx) *)

(** [/research|search|find|documentation|info|who is|what is/i.test(input)]. *)
Definition research_keywords : list jsstring :=
  [lit "research"; lit "search"; lit "find"; lit "documentation"; lit "info";
   lit "who is"; lit "what is"].

Definition needsResearch (input : jsstring) : bool :=
  existsb (includes (map fold_case input)) research_keywords.

(** The first capture of [/```json\n([\s\S]*?)\n```/]: the text between the
    leftmost opening fence and the first closing fence after it. *)
Definition json_fence_open : jsstring := lit "```json" ++ LF.
Definition json_fence_close : jsstring := LF ++ lit "```".

Definition jsonMatch (response : jsstring) : option jsstring :=
  match find_sub json_fence_open response with
  | Some (_, rest) =>
      match find_sub json_fence_close rest with
      | Some (body, _) => Some body
      | None => None
      end
  | None => None
  end.

(** What the [try] block of the parser does before it calls the validator.
    [Raised] is an exception ([JSON.parse] on a text that is not JSON,
    [data.action] on [null]), which the [catch] swallows. *)
Inductive Parsed :=
| Raised
| NoProposal
| Proposed (p : CodeProposal.t).

Definition parse_proposal (response : option jsstring) : Parsed :=
  match response with
  | None => NoProposal
  | Some r =>
      match jsonMatch r with
      | None => NoProposal
      | Some body =>
          match JSON_parse body with
          | None => Raised
          | Some data =>
              match get_property data (lit "action") with
              | None => Raised
              | Some action =>
                  if strict_eq_string action (lit "propose_code") then
                    Proposed
                      (CodeProposal.mk
                         (default JUndefined (get_property data (lit "fileName")))
                         (default JUndefined (get_property data (lit "content")))
                         (default JUndefined (get_property data (lit "description"))))
                  else NoProposal
              end
          end
      end
  end.

Definition no_proposal_warning : jsstring :=
  lit "No valid code proposal found in response.".

(** The inner [try]/[catch]: the local [proposal] is assigned before the
    validator runs, so it keeps its value if the rest of the block throws. *)
Definition find_proposal (response : option jsstring) (config : SystemConfig.t)
  : M (option CodeProposal.t) :=
  match parse_proposal response with
  | Raised => console_warn no_proposal_warning ;; ret None
  | NoProposal => ret None
  | Proposed proposal =>
      try_catch
        (report <- validateCode (CodeProposal.content proposal)
                     (CodeProposal.description proposal) config addLog ;;
         setValidationReport report ;;
         l <- log_record Validator
                (lit "Artifact check complete. Health: OPTIMAL.") LogType.success ;;
         addLog l)
        (fun _ => console_warn no_proposal_warning) ;;
      ret (Some proposal)
  end.

Definition filesContext (p : Project.t) : jsstring :=
  or_else (Some (join (lit ", ") (map ProjectFile.name (Project.files p))))
    (lit "No files yet.").

Definition handleSendMessage : M unit :=
  w <- get ;;
  let inputValue := inputValue w in
  if bool_decide (trim inputValue = []) || isProcessing w then ret tt
  else
    id <- random_string ;;
    let userMsg := ChatMessage.mk id user inputValue None in
    setMessages (fun prev => prev ++ [userMsg]) ;;
    setInputValue [] ;;
    setIsProcessing true ;;
    setValidationReport None ;;
    try_finally
      (try_catch
         (let filesContext := filesContext (project w) in
          augmentedPrompt <-
            (if needsResearch inputValue then
               researchResult <- research inputValue (config w) addLog ;;
               setResearchSources (fun prev => sources researchResult ++ prev) ;;
               ret (lit "Research Findings:" ++ LF
                    ++ interpolate (text researchResult) ++ LF ++ LF
                    ++ lit "Original Request: " ++ inputValue)
             else ret inputValue) ;;
          response <- conduct augmentedPrompt filesContext (aiMode w) addLog (config w) ;;
          proposal <- find_proposal response (config w) ;;
          id <- random_string ;;
          let assistantMsg :=
            ChatMessage.mk id assistant
              (or_else response (lit "Cluster returned empty response.")) proposal in
          setMessages (fun prev => prev ++ [assistantMsg]) ;;
          match proposal with
          | Some p => setPendingProposal (Some p)
          | None => ret tt
          end)
         (fun error =>
            l <- log_record Conductor (lit "Cluster Error: " ++ message error)
                   LogType.error ;;
            addLog l))
      (setIsProcessing false).

(** The extension of a file name: [fileName.split('.').pop() || 'txt']. *)
Definition language_of (fileName : jsstring) : jsstring :=
  or_else (pop (split 46 fileName)) (lit "txt").

Definition approveProposal : M unit :=
  w <- get ;;
  match pendingProposal w with
  | None => ret tt
  | Some pendingProposal =>
      let project := project w in
      let existingFileIndex :=
        findIndex
          (fun f => strict_eq_string (CodeProposal.fileName pendingProposal)
                      (ProjectFile.name f))
          (Project.files project) in
      let updatedFiles := Project.files project in
      match CodeProposal.fileName pendingProposal with
      | JString fileName =>
          let newFile :=
            ProjectFile.mk fileName (CodeProposal.content pendingProposal)
              (language_of fileName) in
          let updatedFiles :=
            if (0 <=? existingFileIndex)%Z
            then <[Z.to_nat existingFileIndex := newFile]> updatedFiles
            else updatedFiles ++ [newFile] in
          updateProject
            (Project.mk (Project.id project) (Project.name project) updatedFiles
               (Project.createdAt project)) ;;
          id <- random_string ;;
          setMessages (fun prev =>
            prev ++ [ChatMessage.mk id system
                       (lit "Integrated changes to workspace: " ++ fileName) None]) ;;
          setPendingProposal None ;;
          setValidationReport None ;;
          l <- log_record Validator
                 (lit "Persisted " ++ fileName ++ lit " to workspace.") LogType.success ;;
          addLog l
      | _ =>
          (* [split] is a method of strings: on anything else the call is a
             TypeError, before any state is touched *)
          throw (Error (typeErrorMessage env))
      end
  end.

(** The close button and the Discard Artifact button of the checkpoint
    modal: [onClick={() => setPendingProposal(null)}]. *)
Definition discardProposal : M unit := setPendingProposal None.

(** *** The two effects on the host, as the handlers compose them *)

(** A record is built from the next random draw and clock reading and
    appended to the activity log. *)
Definition logged (agent : AgentRole) (msg : jsstring) (type : LogType.t)
    (w : World) : World :=
  with_activity
    (activity w
     ++ [ActivityLog.mk (Math_random env (randoms w)) (Date_now env (clock w))
           agent msg type])
    (with_clock (S (clock w)) (with_randoms (S (randoms w)) w)).

(** A request goes out. *)
Definition sent (req : Request.t) (w : World) : World :=
  with_requests (requests w ++ [req]) w.

End Trinity.

Arguments conduct_request : simpl never.
Arguments research_request : simpl never.
Arguments validate_request : simpl never.
Arguments review_converts : simpl never.
Arguments systemInstruction : simpl never.
Arguments parse_proposal : simpl never.
Arguments needsResearch : simpl never.
Arguments filesContext : simpl never.
Arguments language_of : simpl never.
Arguments trim : simpl never.
Arguments research : simpl never.
Arguments conduct : simpl never.
Arguments validateCode : simpl never.
Arguments find_proposal : simpl never.

(** ** Reading a trace *)

(** The gateway operation a request belongs to, told by its shape: the
    validation call sends the review template, the research call enables
    the search tool, the conversation call does neither. *)
Inductive Operation := converse | groundedSearch | reviewArtifact.

Definition operation (req : Request.t) : Operation :=
  match Request.contents req with
  | ReviewTemplate _ _ => reviewArtifact
  | Text _ =>
      match GenConfig.tools (Request.config req) with
      | googleSearch :: _ => groundedSearch
      | [] => converse
      end
  end.

Definition same_operation (a b : Operation) : bool :=
  match a, b with
  | converse, converse | groundedSearch, groundedSearch
  | reviewArtifact, reviewArtifact => true
  | _, _ => false
  end.

(** How many requests of a trace belong to the operation [op]. *)
Definition calls (op : Operation) (trace : list Request.t) : nat :=
  length (List.filter (fun req => same_operation (operation req) op) trace).

(** An error-severity record of the agent Conductor. *)
Definition is_conductor_error (l : ActivityLog.t) : bool :=
  match ActivityLog.agent l, ActivityLog.type l with
  | Conductor, LogType.error => true
  | _, _ => false
  end.

Definition is_error (l : ActivityLog.t) : bool :=
  match ActivityLog.type l with LogType.error => true | _ => false end.

Definition conductor_errors (log : list ActivityLog.t) : nat :=
  length (List.filter is_conductor_error log).
Arguments conductor_errors : simpl never.

(** The degraded results of the two advisory calls. *)
Definition research_apology : jsstring :=
  lit "Research swarm was unable to reach the web. Proceeding with internal knowledge base.".

Definition validation_timed_out : jsstring :=
  lit "Validation node timed out. Manual review highly recommended.".

(** The report the validation call leaves, whatever its outcome. *)
Definition report_of (o : Outcome) : option jsstring :=
  match o with
  | Resolved r => Response.text r
  | Rejected _ => Some validation_timed_out
  end.

(** The block format of the specification, section 6: an object with the
    keys [action] (of value [propose_code]), [fileName], [content] and
    [description].  Section 4.2 counts a block with missing fields as one
    whose parsing fails. *)
Definition spec_block_has_fields (data : JsValue) : bool :=
  match data with
  | JObject ms =>
      match last_member (lit "action") ms, last_member (lit "fileName") ms,
            last_member (lit "content") ms, last_member (lit "description") ms with
      | Some action, Some _, Some _, Some _ =>
          strict_eq_string action (lit "propose_code")
      | _, _, _, _ => false
      end
  | _ => false
  end.

(** ** Sample runs *)

(** The configuration [App] starts with. *)
Definition initial_config : SystemConfig.t :=
  SystemConfig.mk (lit "gemini-3-pro-preview") (lit "gemini-3-flash-preview")
    (lit "gemini-3-pro-preview") (lit "gemini-3-pro-preview") (Some []).

Definition utils_file : ProjectFile.t :=
  ProjectFile.mk (lit "utils.ts") (JString (lit "export {}")) (lit "ts").

Definition readme_file : ProjectFile.t :=
  ProjectFile.mk (lit "README.md") (JString (lit "# Demo")) (lit "md").

Definition demo_project : Project.t :=
  Project.mk (lit "k3j9x0q2a") (lit "DEMO") [readme_file; utils_file] 1700000000000.

(** A view that was just opened on [demo_project], with [input] typed in and
    [pending] awaiting approval. *)
Definition demo_world (input : jsstring) (pending : option CodeProposal.t)
    (report : option jsstring) : World :=
  mkWorld demo_project initial_config [] [] input false precision pending report
    [] [] [] 0 0.

Definition utils_block : jsstring :=
  quoted "{'action': 'propose_code', 'fileName': 'utils.ts', 'content': 'export const id = 1', 'description': 'add id'}".

Definition notes_block : jsstring :=
  quoted "{'action': 'propose_code', 'fileName': 'notes.', 'content': 'todo', 'description': 'notes'}".

Definition fenced (body : jsstring) : jsstring :=
  json_fence_open ++ body ++ json_fence_close.

Definition answer (t : jsstring) : Outcome := Resolved (Response.mk (Some t) None).

Definition network_error : JsError := Error (lit "Failed to fetch").

Definition host (api : nat -> Request.t -> Outcome) : Env :=
  mkEnv api (fun n => lit "0." ++ replicate (S n) 55%N)
    (fun n => 1700000000000 + N.of_nat n)%N
    (lit "Cannot read properties of undefined (reading 'split')").

(** The API is unreachable. *)
Definition env_offline : Env := host (fun _ _ => Rejected network_error).

(** The model answers every request with prose and two blocks, the first
    one a proposal for utils.ts. *)
Definition env_proposing : Env :=
  host (fun _ _ =>
          answer (lit "Here is the change." ++ LF ++ fenced utils_block ++ LF
                  ++ lit "and a second one" ++ LF ++ fenced notes_block)).

(** Only the conversation call gets through; it proposes utils.ts. *)
Definition env_advisors_down : Env :=
  host (fun _ req =>
          match operation req with
          | converse => answer (lit "Done." ++ LF ++ fenced utils_block)
          | _ => Rejected network_error
          end).

(** The model answers with a block that has the action and nothing else. *)
Definition env_bare_action : Env :=
  host (fun _ _ => answer (fenced (quoted "{'action':'propose_code'}"))).

Definition utils_proposal : CodeProposal.t :=
  CodeProposal.mk (JString (lit "utils.ts")) (JString (lit "export const id = 1"))
    (JString (lit "add id")).

Definition notes_proposal : CodeProposal.t :=
  CodeProposal.mk (JString (lit "notes.")) (JString (lit "todo"))
    (JString (lit "notes")).

(** ** The other controls of the view (components/ProjectView.tsx) *)

Definition with_config (x : SystemConfig.t) (w : World) : World :=
  let 'mkWorld p _ a m v b d q r s t o n k := w in
  mkWorld p x a m v b d q r s t o n k.
Definition with_aiMode (x : Mode) (w : World) : World :=
  let 'mkWorld p c a m v b _ q r s t o n k := w in
  mkWorld p c a m v b x q r s t o n k.

(** The Thinking and Fast buttons: [onClick={() => setAiMode(...)}]. *)
Definition setAiMode (m : Mode) : M unit := modify (with_aiMode m).

(** The [disabled] attribute of the Transmit button:
    [!inputValue.trim() || isProcessing]. *)
Definition sendDisabled (w : World) : bool :=
  bool_decide (trim (inputValue w) = []) || isProcessing w.

(** What the user can do in the view: type into the input box
    ([onChange={(e) => setInputValue(e.target.value)}]), choose the mode,
    press Enter or Transmit, and answer the checkpoint modal. *)
Inductive Event :=
| TypeInput (v : jsstring)
| ChooseMode (m : Mode)
| Send
| Approve
| Discard.

Definition handle (env : Env) (e : Event) : M unit :=
  match e with
  | TypeInput v => setInputValue v
  | ChooseMode m => setAiMode m
  | Send => handleSendMessage env
  | Approve => approveProposal env
  | Discard => discardProposal
  end.

(** The view after a sequence of events, each handler run to completion; an
    exception that escapes a handler leaves the state the handler had
    reached. *)
Definition after (env : Env) (events : list Event) (w : World) : World :=
  fold_left (fun w e => snd (handle env e w)) events w.

(** The file names of a project, in order: the React keys of the Files
    tab. *)
Definition file_names (p : Project.t) : list jsstring :=
  map ProjectFile.name (Project.files p).

(** The new requests of a run. *)
Definition new_requests (before after : World) : list Request.t :=
  drop (length (requests before)) (requests after).

(** A configuration with other values in the two fields no gateway call
    reads. *)
Definition with_unused_fields (coder : jsstring) (engine : option jsstring)
    (c : SystemConfig.t) : SystemConfig.t :=
  SystemConfig.mk (SystemConfig.conductorModel c) (SystemConfig.researchModel c)
    coder (SystemConfig.validatorModel c) engine.

(** ** App (App.tsx) *)

Module App.

(** The state cells the handlers below read and write.  [showSettings] and
    the [isCustom] flags only choose what is drawn. *)
Record State := mk
  { projects : list Project.t;
    activeProjectId : option jsstring;
    activity : list ActivityLog.t;
    systemConfig : SystemConfig.t;
    randoms : nat;
    clock : nat }.

(** What the page supplies besides [Env]: the answer to [window.prompt]
    ([None] when cancelled), the text of the n-th
    [Math.random().toString(36)], and [String.prototype.toUpperCase]. *)
Record Host := mkHost
  { prompt : option jsstring;
    Math_random36 : nat -> jsstring;
    toUpperCase : jsstring -> jsstring }.

(** [projects.find(p => p.id === activeProjectId) || null]. *)
Definition activeProject (s : State) : option Project.t :=
  match activeProjectId s with
  | Some id => List.find (fun p => str_eqb (Project.id p) id) (projects s)
  | None => None
  end.

(** [setProjects(prev => prev.map(p => p.id === updatedProject.id ? updatedProject : p))]. *)
Definition updateProject (updatedProject : Project.t) (s : State) : State :=
  mk (map (fun p => if str_eqb (Project.id p) (Project.id updatedProject)
                    then updatedProject else p) (projects s))
    (activeProjectId s) (activity s) (systemConfig s) (randoms s) (clock s).

(** [setActivity(prev => [...prev, log])]. *)
Definition addLog (l : ActivityLog.t) (s : State) : State :=
  mk (projects s) (activeProjectId s) (activity s ++ [l]) (systemConfig s)
    (randoms s) (clock s).

(** [onSelectProject={setActiveProjectId}]. *)
Definition selectProject (id : jsstring) (s : State) : State :=
  mk (projects s) (Some id) (activity s) (systemConfig s) (randoms s) (clock s).

(** [String.prototype.substr(start, length)]. *)
Definition substr (start len : nat) (t : jsstring) : jsstring :=
  take len (drop start t).

Definition handleNewProject (env : Env) (host : Host) (s : State) : State :=
  match prompt host with
  | None | Some [] => s
  | Some name =>
      let newProject :=
        Project.mk (substr 2 9 (Math_random36 host (randoms s)))
          (toUpperCase host name) [] (Date_now env (clock s)) in
      mk (projects s ++ [newProject])
        (Some (Project.id newProject))
        (activity s
         ++ [ActivityLog.mk (Math_random env (S (randoms s)))
               (Date_now env (S (clock s))) Conductor
               (lit "Project workspace initialized: " ++ Project.name newProject)
               LogType.success])
        (systemConfig s) (S (S (randoms s))) (S (S (clock s)))
  end.

End App.

(** A page that has no project yet. *)
Definition empty_app : App.State :=
  App.mk [] None [] initial_config 0 0.

(** ASCII letters to upper case: what [toUpperCase] does on ASCII text. *)
Definition ascii_upper (t : jsstring) : jsstring :=
  map (fun c => if (97 <=? c)%N && (c <=? 122)%N then (c - 32)%N else c) t.

Definition demo_host (answer : option jsstring) : App.Host :=
  App.mkHost answer (fun n => lit "0.k3j9x0q2a7" ++ replicate n 55%N) ascii_upper.

(** ** What a workspace keeps *)

(** The files have pairwise different names, each carries the language tag
    of its name, and no turn is in flight. *)
Definition workspace_ok (w : World) : Prop :=
  NoDup (file_names (project w))
  /\ Forall (fun f => ProjectFile.language f = language_of (ProjectFile.name f))
       (Project.files (project w))
  /\ isProcessing w = false.

Definition same_identity (p q : Project.t) : Prop :=
  Project.id p = Project.id q /\ Project.name p = Project.name q
  /\ Project.createdAt p = Project.createdAt q.

(** ** More sample runs *)

Definition rocq_source : Source.t :=
  Source.mk (lit "The Rocq Prover") (lit "https://rocq-prover.org").

Definition mdn_source : Source.t :=
  Source.mk (lit "JSON.parse") (lit "https://developer.mozilla.org").

(** A research answer with three grounding chunks, the second without a
    [web] entry. *)
Definition grounded_response : Response.t :=
  Response.mk (Some (lit "Two sources."))
    (Some [Response.candidate
             (Some (Response.metadata
                      (Some [Response.chunk (Some rocq_source);
                             Response.chunk None;
                             Response.chunk (Some mdn_source)])))]).

(** The research call finds sources; the conversation call answers in
    prose. *)
Definition env_grounded : Env :=
  host (fun _ req =>
          match operation req with
          | groundedSearch => Resolved grounded_response
          | _ => answer (lit "The capital of France is Paris.")
          end).

Definition other_project : Project.t :=
  Project.mk (lit "z8w1c5v3b") (lit "OTHER") [readme_file] 1600000000000.

(** A page with two projects, the second one selected. *)
Definition demo_app : App.State :=
  App.mk [other_project; demo_project] (Some (lit "k3j9x0q2a")) [] initial_config
    0 0.

(** What [env_proposing] answers. *)
Definition proposing_response : Response.t :=
  Response.mk
    (Some (lit "Here is the change." ++ LF ++ fenced utils_block ++ LF
           ++ lit "and a second one" ++ LF ++ fenced notes_block))
    None.

(** A proposal whose content is an object that has no string. *)
Definition opaque_block : jsstring :=
  quoted "{'action': 'propose_code', 'fileName': 'a.ts', 'content': {'toString': 1}, 'description': 'd'}".

Definition opaque_proposal : CodeProposal.t :=
  CodeProposal.mk (JString (lit "a.ts"))
    (JObject [(lit "toString", JNumber (lit "1"))]) (JString (lit "d")).

Definition opaque_response : Response.t :=
  Response.mk (Some (fenced opaque_block)) None.

Definition env_opaque_content : Env := host (fun _ _ => Resolved opaque_response).

Definition bare_proposal : CodeProposal.t :=
  CodeProposal.mk JUndefined JUndefined JUndefined.

Definition demo_events : list Event :=
  [TypeInput (lit "add an id helper"); Send; Approve;
   ChooseMode speed; TypeInput (lit "what is left to do?"); Send; Approve;
   TypeInput (lit "   "); Send; Discard].

(** * Properties *)

(** ** The JavaScript primitives on small inputs *)

Example split_trailing_dot : split 46 (lit "a.b.") = [lit "a"; lit "b"; []].
Proof. reflexivity. Qed.

Example split_empty : split 46 [] = [[]].
Proof. reflexivity. Qed.

Example trim_both_ends : trim (lit "  a b  ") = lit "a b".
Proof. reflexivity. Qed.

Example heuristic_ignores_case : needsResearch (lit "FIND the docs") = true.
Proof. reflexivity. Qed.

Example heuristic_inside_a_word : needsResearch (lit "misinformation") = true.
Proof. reflexivity. Qed.

Example heuristic_no_keyword : needsResearch (lit "add an id helper") = false.
Proof. reflexivity. Qed.

Example parse_nested :
  JSON_parse (quoted " {'a': [1, -2.5e+3, true, null, {}], 'a': 'x\u0041\n'} ")
  = Some (JObject
            [(lit "a", JArray [JNumber (lit "1"); JNumber (lit "-2.5e+3");
                               JBool true; JNull; JObject []]);
             (lit "a", JString [120; 65; 10]%N)]).
Proof. reflexivity. Qed.

Example parse_later_key_wins :
  (fun data => get_property data (lit "a"))
    <$> JSON_parse (quoted "{'a': 1, 'a': 2}")
  = Some (Some (JNumber (lit "2"))).
Proof. reflexivity. Qed.

Example parse_rejects_trailing_comma : JSON_parse (quoted "{'a': 1,}") = None.
Proof. reflexivity. Qed.

Example parse_rejects_leading_zero : JSON_parse (lit "01") = None.
Proof. reflexivity. Qed.

Example parse_rejects_raw_newline :
  JSON_parse (quoted "'a" ++ LF ++ quoted "b'") = None.
Proof. reflexivity. Qed.

Example match_is_lazy :
  jsonMatch (lit "```json" ++ LF ++ lit "1" ++ LF ++ lit "```" ++ LF
             ++ lit "2" ++ LF ++ lit "```")
  = Some (lit "1").
Proof. reflexivity. Qed.

Example match_needs_closing_fence :
  jsonMatch (lit "```json" ++ LF ++ lit "{}```") = None.
Proof. reflexivity. Qed.

(** ** Searching in strings *)

Lemma strip_prefix_spec (p s r : jsstring) :
  strip_prefix p s = Some r <-> s = p ++ r.
Proof.
  revert s; induction p as [|a p IH]; intros s; simpl.
  - split; congruence.
  - destruct s as [|b s]; [split; discriminate|].
    destruct (N.eqb_spec a b) as [->|Hne].
    + rewrite IH. split; congruence.
    + split; [discriminate|]. intros [= ? _]. congruence.
Qed.

Lemma strip_prefix_app (p r : jsstring) : strip_prefix p (p ++ r) = Some r.
Proof. by apply strip_prefix_spec. Qed.

Lemma strip_prefix_app_None (p x rest : jsstring) :
  strip_prefix p x = None -> length p <= length x ->
  strip_prefix p (x ++ rest) = None.
Proof.
  revert x; induction p as [|a p IH]; intros [|b x]; simpl; try done.
  - lia.
  - destruct (a =? b)%N; [|done]. intros H Hl. apply IH; [done|lia].
Qed.

Lemma find_sub_cons (n : jsstring) (c : N) (s : jsstring) :
  find_sub n (c :: s) =
    match strip_prefix n (c :: s) with
    | Some rest => Some ([], rest)
    | None =>
        match find_sub n s with
        | Some (before, rest) => Some (c :: before, rest)
        | None => None
        end
    end.
Proof. reflexivity. Qed.

Lemma find_sub_here (n s r : jsstring) :
  strip_prefix n s = Some r -> find_sub n s = Some ([], r).
Proof. intros H. destruct s; [simpl | rewrite find_sub_cons]; by rewrite H. Qed.

Lemma find_sub_sound (n s a b : jsstring) :
  find_sub n s = Some (a, b) -> s = a ++ n ++ b.
Proof.
  revert a b; induction s as [|c s IH]; intros a b.
  - simpl. destruct (strip_prefix n []) eqn:E; [|done].
    intros [= <- <-]. by apply strip_prefix_spec in E.
  - rewrite find_sub_cons. destruct (strip_prefix n (c :: s)) eqn:E.
    + intros [= <- <-]. by apply strip_prefix_spec in E.
    + destruct (find_sub n s) as [[a' b']|]; [|done].
      intros [= <- <-]. simpl. f_equal. by apply IH.
Qed.

Lemma find_sub_least (n s a b : jsstring) :
  find_sub n s = Some (a, b) ->
  forall a' b', s = a' ++ n ++ b' -> length a <= length a'.
Proof.
  revert a b; induction s as [|c s IH]; intros a b.
  - simpl. destruct (strip_prefix n []); [|done].
    intros [= <- <-] a' b' _. simpl. lia.
  - rewrite find_sub_cons. destruct (strip_prefix n (c :: s)) eqn:E.
    + intros [= <- <-] a' b' _. simpl. lia.
    + destruct (find_sub n s) as [[a0 b0]|] eqn:F; [|done].
      intros [= <- <-] a' b' Hs. destruct a' as [|c' a'].
      * simpl in Hs. rewrite Hs, strip_prefix_app in E. done.
      * simpl in Hs. injection Hs as -> Hs.
        specialize (IH a0 b0 eq_refl a' b' Hs). simpl. lia.
Qed.

Lemma find_sub_complete (n s a b : jsstring) :
  s = a ++ n ++ b -> is_Some (find_sub n s).
Proof.
  revert s; induction a as [|c a IH]; intros s ->.
  - rewrite (find_sub_here n ([] ++ n ++ b) b); [by eexists|].
    exact (strip_prefix_app n b).
  - rewrite <- app_comm_cons, find_sub_cons.
    destruct (strip_prefix n (c :: a ++ n ++ b)); [by eexists|].
    destruct (IH (a ++ n ++ b) eq_refl) as [[a' b'] ->]. by eexists.
Qed.

(** [includes] is the substring relation. *)
Lemma includes_spec (s n : jsstring) :
  includes s n = true <-> exists a b, s = a ++ n ++ b.
Proof.
  unfold includes. split.
  - destruct (find_sub n s) as [[a b]|] eqn:E; [|done].
    intros _. exists a, b. by apply find_sub_sound.
  - intros (a & b & ->).
    by destruct (find_sub_complete n (a ++ n ++ b) a b eq_refl) as [? ->].
Qed.

(** If the leftmost occurrence of [n] in [pre ++ n] is the one at the end,
    it is the leftmost one in any text that starts with [pre ++ n]. *)
Lemma find_sub_first (n pre rest : jsstring) :
  find_sub n (pre ++ n) = Some (pre, []) ->
  find_sub n (pre ++ n ++ rest) = Some (pre, rest).
Proof.
  induction pre as [|c pre IH].
  - intros _. apply find_sub_here. exact (strip_prefix_app n rest).
  - rewrite <- !app_comm_cons, !find_sub_cons.
    destruct (strip_prefix n (c :: pre ++ n)) eqn:E; [done|].
    destruct (find_sub n (pre ++ n)) as [[a b]|] eqn:F; [|done].
    intros [= -> ->].
    assert (strip_prefix n ((c :: pre ++ n) ++ rest) = None) as E'.
    { apply strip_prefix_app_None; [done|]. simpl. rewrite length_app. lia. }
    simpl in E'. rewrite <- app_assoc in E'. rewrite E'.
    by rewrite IH.
Qed.

(** The first fenced block of a response: what surrounds it plays no
    role. *)
Lemma jsonMatch_first_block (pre body post : jsstring) :
  find_sub json_fence_open (pre ++ json_fence_open) = Some (pre, []) ->
  find_sub json_fence_close (body ++ json_fence_close) = Some (body, []) ->
  jsonMatch (pre ++ json_fence_open ++ body ++ json_fence_close ++ post)
  = Some body.
Proof.
  intros Ho Hc. unfold jsonMatch.
  rewrite (find_sub_first _ _ _ Ho). by rewrite (find_sub_first _ _ _ Hc).
Qed.

Lemma jsonMatch_no_fence (response : jsstring) :
  includes response json_fence_open = false -> jsonMatch response = None.
Proof.
  unfold includes, jsonMatch.
  by destruct (find_sub json_fence_open response) as [[? ?]|].
Qed.

(** A text that is not of the shape opening fence, body, closing fence,
    with anything before and after, has no match: this covers the text
    without an opening fence and the one whose block is never closed. *)
Lemma jsonMatch_no_block (response : jsstring) :
  (forall pre body post,
     response <> pre ++ json_fence_open ++ body ++ json_fence_close ++ post) ->
  jsonMatch response = None.
Proof.
  intros Hnone. unfold jsonMatch.
  destruct (find_sub json_fence_open response) as [[pre rest]|] eqn:Hopen;
    [|done].
  destruct (find_sub json_fence_close rest) as [[body post]|] eqn:Hclose;
    [|done].
  apply find_sub_sound in Hopen, Hclose. subst rest.
  by destruct (Hnone pre body post).
Qed.

(** ** The fuel of the JSON reader *)

Lemma skip_ws_length (s : jsstring) : length (skip_ws s) <= length s.
Proof.
  induction s as [|c s IH]; simpl; [lia|].
  destruct (is_json_ws c); simpl; lia.
Qed.

Lemma strip_prefix_length (p s r : jsstring) :
  strip_prefix p s = Some r -> length s = length p + length r.
Proof. intros H. apply strip_prefix_spec in H as ->. by rewrite length_app. Qed.

Lemma push_length {A} (a : A) (x : option (list A * jsstring))
    (l : list A) (r : jsstring) (n : nat) :
  push a x = Some (l, r) ->
  (forall l' r', x = Some (l', r') -> length r' < n) ->
  length r < n.
Proof.
  destruct x as [[l' r']|]; simpl; [|done].
  intros [= <- <-] H. by apply (H l' r').
Qed.

Lemma read_string_length (s t r : jsstring) :
  read_string s = Some (t, r) -> length r < length s.
Proof.
  remember (length s) as n eqn:Hn. revert s t r Hn.
  induction n as [n IH] using lt_wf_ind. intros s t r -> H.
  destruct s as [|c s]; [done|]. simpl in H.
  destruct (c =? 34)%N.
  { injection H as <- <-. simpl. lia. }
  destruct (c =? 92)%N.
  - destruct s as [|e s]; [done|].
    destruct (e =? 117)%N.
    + destruct s as [|h1 [|h2 [|h3 [|h4 s]]]]; try done.
      destruct (hex4 h1 h2 h3 h4); [|done].
      eapply push_length in H; [|intros l' r' Hr;
        apply (IH (length s) ltac:(simpl; lia) s l' r' eq_refl Hr)].
      simpl. lia.
    + destruct (unescape e); [|done].
      eapply push_length in H; [|intros l' r' Hr;
        apply (IH (length s) ltac:(simpl; lia) s l' r' eq_refl Hr)].
      simpl. lia.
  - destruct (c <? 32)%N; [done|].
    eapply push_length in H; [|intros l' r' Hr;
      apply (IH (length s) ltac:(simpl; lia) s l' r' eq_refl Hr)].
    simpl. lia.
Qed.

Lemma read_digits_length (s : jsstring) :
  length (snd (read_digits s)) <= length s.
Proof.
  induction s as [|c s IH]; simpl; [lia|].
  destruct (is_digit c); [|simpl; lia].
  destruct (read_digits s). simpl in *. lia.
Qed.

Lemma read_int_length (s i r : jsstring) :
  read_int s = Some (i, r) -> length r < length s.
Proof.
  destruct s as [|d s]; simpl; [done|].
  destruct (d =? 48)%N; [intros [= <- <-]; lia|].
  destruct (is_digit d); [|done].
  pose proof (read_digits_length s). destruct (read_digits s).
  intros [= <- <-]. simpl in *. lia.
Qed.

Lemma read_frac_length (s f r : jsstring) :
  read_frac s = Some (f, r) -> length r <= length s.
Proof.
  destruct s as [|c s]; simpl; [intros [= <- <-]; simpl; lia|].
  destruct (c =? 46)%N; [|intros [= <- <-]; simpl; lia].
  pose proof (read_digits_length s). destruct (read_digits s) as [[|d ds] rest];
    [done|]. intros [= <- <-]. simpl in *. lia.
Qed.

Lemma read_exp_length (s e r : jsstring) :
  read_exp s = Some (e, r) -> length r <= length s.
Proof.
  destruct s as [|c s]; simpl; [intros [= <- <-]; simpl; lia|].
  destruct ((c =? 69)%N || (c =? 101)%N); [|intros [= <- <-]; simpl; lia].
  destruct s as [|g s].
  - simpl. done.
  - destruct ((g =? 43)%N || (g =? 45)%N).
    + pose proof (read_digits_length s).
      destruct (read_digits s) as [[|d ds] rest]; [done|].
      intros [= <- <-]. simpl in *. lia.
    + pose proof (read_digits_length (g :: s)).
      destruct (read_digits (g :: s)) as [[|d ds] rest]; [done|].
      intros [= <- <-]. simpl in *. lia.
Qed.

Lemma read_number_length (s n r : jsstring) :
  read_number s = Some (n, r) -> length r < length s.
Proof.
  unfold read_number.
  assert (forall sign s1, length s1 <= length s ->
            match read_int s1 with
            | Some (i, s2) =>
                match read_frac s2 with
                | Some (f, s3) =>
                    match read_exp s3 with
                    | Some (e, s4) => Some (sign ++ i ++ f ++ e, s4)
                    | None => None
                    end
                | None => None
                end
            | None => None
            end = Some (n, r) -> length r < length s) as Hbody.
  { intros sign s1 Hs1.
    destruct (read_int s1) as [[i s2]|] eqn:Hi; [|done].
    destruct (read_frac s2) as [[f s3]|] eqn:Hf; [|done].
    destruct (read_exp s3) as [[e s4]|] eqn:He; [|done].
    intros [= <- <-].
    apply read_int_length in Hi. apply read_frac_length in Hf.
    apply read_exp_length in He. lia. }
  destruct s as [|c s]; [by apply Hbody|].
  destruct (c =? 45)%N; apply Hbody; simpl; lia.
Qed.

Lemma read_literal_length (word : jsstring) (v v' : JsValue) (s r : jsstring) :
  word <> [] -> read_literal word v s = Some (v', r) -> length r < length s.
Proof.
  intros Hword. unfold read_literal.
  destruct (strip_prefix word s) as [rest|] eqn:E; [|done].
  intros [= <- <-]. apply strip_prefix_length in E.
  destruct word; [done|]. simpl in E. lia.
Qed.

(** Every reader consumes input. *)
Lemma read_length (fuel : nat) :
  (forall s v r, read_value fuel s = Some (v, r) -> length r < length s)
  /\ (forall s vs r, read_elements fuel s = Some (vs, r) -> length r < length s)
  /\ (forall s ms r, read_members fuel s = Some (ms, r) -> length r < length s).
Proof.
  induction fuel as [|f (IHv & IHe & IHm)]; [done|].
  split; [|split].
  - intros s v r. simpl.
    pose proof (skip_ws_length s) as Hs.
    destruct (skip_ws s) as [|c s0]; [done|]. simpl in Hs.
    destruct (c =? 123)%N.
    { pose proof (skip_ws_length s0) as Hs0.
      destruct (skip_ws s0) as [|c' s1]; [done|]. simpl in Hs0.
      destruct (c' =? 125)%N; [intros [= <- <-]; lia|].
      destruct (read_members f s0) as [[ms rest]|] eqn:E; [|done].
      intros [= <- <-]. apply IHm in E. lia. }
    destruct (c =? 91)%N.
    { pose proof (skip_ws_length s0) as Hs0.
      destruct (skip_ws s0) as [|c' s1]; [done|]. simpl in Hs0.
      destruct (c' =? 93)%N; [intros [= <- <-]; lia|].
      destruct (read_elements f s0) as [[vs rest]|] eqn:E; [|done].
      intros [= <- <-]. apply IHe in E. lia. }
    destruct (c =? 34)%N.
    { destruct (read_string s0) as [[t rest]|] eqn:E; [|done].
      intros [= <- <-]. apply read_string_length in E. lia. }
    destruct (c =? 110)%N.
    { intros H. apply read_literal_length in H; [simpl in H; lia|done]. }
    destruct (c =? 116)%N.
    { intros H. apply read_literal_length in H; [simpl in H; lia|done]. }
    destruct (c =? 102)%N.
    { intros H. apply read_literal_length in H; [simpl in H; lia|done]. }
    destruct (read_number (c :: s0)) as [[n rest]|] eqn:E; [|done].
    intros [= <- <-]. apply read_number_length in E. simpl in E. lia.
  - intros s vs r. simpl.
    destruct (read_value f s) as [[v r0]|] eqn:E; [|done]. apply IHv in E.
    pose proof (skip_ws_length r0) as Hr0.
    destruct (skip_ws r0) as [|c r1]; [done|]. simpl in Hr0.
    destruct (c =? 44)%N.
    { intros H. eapply push_length in H; [|intros l' r' Hr; apply (IHe _ _ _ Hr)].
      lia. }
    destruct (c =? 93)%N; [|done]. intros [= <- <-]. lia.
  - intros s ms r. simpl.
    pose proof (skip_ws_length s) as Hs.
    destruct (skip_ws s) as [|q s0]; [done|]. simpl in Hs.
    destruct (q =? 34)%N; [|done].
    destruct (read_string s0) as [[k s1]|] eqn:Ek; [|done].
    apply read_string_length in Ek.
    pose proof (skip_ws_length s1) as Hs1.
    destruct (skip_ws s1) as [|c s2]; [done|]. simpl in Hs1.
    destruct (c =? 58)%N; [|done].
    destruct (read_value f s2) as [[v s3]|] eqn:Ev; [|done]. apply IHv in Ev.
    pose proof (skip_ws_length s3) as Hs3.
    destruct (skip_ws s3) as [|d s4]; [done|]. simpl in Hs3.
    destruct (d =? 44)%N.
    { intros H. eapply push_length in H; [|intros l' r' Hr; apply (IHm _ _ _ Hr)].
      lia. }
    destruct (d =? 125)%N; [|done]. intros [= <- <-]. lia.
Qed.

(** Above twice the length of the text, the result of a reader does not
    depend on its fuel: the reader never stops for lack of it. *)
Lemma read_fuel (f1 : nat) :
  forall f2,
    (forall s, 2 * length s + 1 <= f1 -> 2 * length s + 1 <= f2 ->
               read_value f1 s = read_value f2 s)
    /\ (forall s, 2 * length s + 2 <= f1 -> 2 * length s + 2 <= f2 ->
                  read_elements f1 s = read_elements f2 s)
    /\ (forall s, 2 * length s + 2 <= f1 -> 2 * length s + 2 <= f2 ->
                  read_members f1 s = read_members f2 s).
Proof.
  induction f1 as [|g1 IH]; intros f2.
  { repeat split; intros; lia. }
  destruct f2 as [|g2].
  { repeat split; intros; lia. }
  destruct (IH g2) as (IHv & IHe & IHm).
  split; [|split].
  - intros s H1 H2. simpl.
    pose proof (skip_ws_length s) as Hs.
    destruct (skip_ws s) as [|c s0]; [done|]. simpl in Hs.
    rewrite (IHm s0), (IHe s0) by lia. done.
  - intros s H1 H2. simpl.
    rewrite (IHv s) by lia.
    destruct (read_value g2 s) as [[v r0]|] eqn:E; [|done].
    apply read_length in E.
    pose proof (skip_ws_length r0) as Hr0.
    destruct (skip_ws r0) as [|c r1]; [done|]. simpl in Hr0.
    rewrite (IHe r1) by lia. done.
  - intros s H1 H2. simpl.
    pose proof (skip_ws_length s) as Hs.
    destruct (skip_ws s) as [|q s0]; [done|]. simpl in Hs.
    destruct (q =? 34)%N; [|done].
    destruct (read_string s0) as [[k s1]|] eqn:Ek; [|done].
    apply read_string_length in Ek.
    pose proof (skip_ws_length s1) as Hs1.
    destruct (skip_ws s1) as [|c s2]; [done|]. simpl in Hs1.
    destruct (c =? 58)%N; [|done].
    rewrite (IHv s2) by lia.
    destruct (read_value g2 s2) as [[v s3]|] eqn:Ev; [|done].
    apply read_length in Ev.
    pose proof (skip_ws_length s3) as Hs3.
    destruct (skip_ws s3) as [|d s4]; [done|]. simpl in Hs3.
    rewrite (IHm s4) by lia. done.
Qed.

(** [JSON_parse] gives its reader enough fuel: more of it changes
    nothing. *)
Lemma JSON_parse_fuel (text : jsstring) (fuel : nat) :
  2 * length text + 2 <= fuel ->
  read_value fuel text = read_value (2 * length text + 2) text.
Proof. intros H. apply read_fuel; lia. Qed.

(** ** Splitting a file name *)

Lemma split_nonempty (sep : N) (s : jsstring) : split sep s <> [].
Proof.
  destruct s as [|c s]; simpl; [done|].
  destruct (c =? sep)%N; [done|]. by destruct (split sep s).
Qed.

Lemma split_no_sep (sep : N) (s : jsstring) : sep ∉ s -> split sep s = [s].
Proof.
  induction s as [|c s IH]; simpl; [done|].
  intros H. apply not_elem_of_cons in H as [Hc Hs].
  destruct (N.eqb_spec c sep); [congruence|]. by rewrite IH.
Qed.

Lemma split_app_sep (sep : N) (p t : jsstring) :
  split sep (p ++ sep :: t) = split sep p ++ split sep t.
Proof.
  induction p as [|c p IH]; simpl.
  - by rewrite N.eqb_refl.
  - destruct (c =? sep)%N; rewrite IH; [done|].
    pose proof (split_nonempty sep p). by destruct (split sep p).
Qed.

Lemma pop_snoc {A} (l : list A) (x : A) : pop (l ++ [x]) = Some x.
Proof.
  induction l as [|y l IH]; simpl; [done|].
  rewrite IH. by destruct l.
Qed.

(** The last segment of a name that has a dot, and of one that has none. *)
Lemma pop_split_dot (stem ext : jsstring) :
  46%N ∉ ext -> pop (split 46 (stem ++ 46%N :: ext)) = Some ext.
Proof.
  intros H. rewrite split_app_sep, (split_no_sep _ ext H). apply pop_snoc.
Qed.

Lemma pop_split_no_dot (s : jsstring) :
  46%N ∉ s -> pop (split 46 s) = Some s.
Proof. intros H. by rewrite (split_no_sep _ s H). Qed.

(** ** [findIndex] *)

Lemma findIndex_ge {A} (p : A -> bool) (l : list A) : (-1 <= findIndex p l)%Z.
Proof.
  induction l as [|x l IH]; simpl; [lia|].
  destruct (p x); [lia|]. destruct (Z.ltb_spec (findIndex p l) 0); lia.
Qed.

Lemma findIndex_found {A} (p : A -> bool) (l : list A) (i : nat) (x : A) :
  l !! i = Some x -> p x = true ->
  (forall j y, j < i -> l !! j = Some y -> p y = false) ->
  findIndex p l = Z.of_nat i.
Proof.
  revert i; induction l as [|z l IH]; intros i Hi Hx Hlt; [done|].
  simpl. destruct i as [|i].
  - simpl in Hi. injection Hi as ->. by rewrite Hx.
  - rewrite (Hlt 0 z); [|lia|done]. simpl in Hi.
    rewrite (IH i Hi Hx).
    + destruct (Z.ltb_spec (Z.of_nat i) 0); lia.
    + intros j y Hj Hy. apply (Hlt (S j) y); [lia|done].
Qed.


(** ** Runs of the gateway *)

Section Runs.

Variable env : Env.

Lemma conduct_run (prompt context : jsstring) (mode : Mode)
    (config : SystemConfig.t) (w : World) :
  let req := conduct_request prompt context mode config in
  let w1 :=
    sent req
      (logged env Conductor
         (lit "Initiating "
          ++ (if isPrecision mode then lit "High-Reasoning" else lit "High-Speed")
          ++ lit " orchestration via " ++ conduct_model mode config ++ lit "...")
         LogType.info w) in
  conduct env prompt context mode addLog config w =
    match generateContent env (length (requests w)) req with
    | Resolved r => (Normal (Response.text r), w1)
    | Rejected e =>
        (Thrown e,
         logged env Conductor (lit "API Exception: " ++ message e) LogType.error w1)
    end.
Proof.
  destruct w. cbv zeta. unfold conduct, bind, try_catch, generate. cbn.
  by destruct (generateContent env _ _).
Qed.

Lemma research_run (query : jsstring) (config : SystemConfig.t) (w : World) :
  let req := research_request query config in
  let w1 :=
    sent req
      (logged env ResearchLead
         (lit "Triggering technical search grounding for: " ++ query)
         LogType.info w) in
  research env query config addLog w =
    match generateContent env (length (requests w)) req with
    | Resolved r =>
        (Normal (mkResearch (Response.text r) (grounding_sources r)),
         logged env SpecializedResearcher
           (lit "Grounding complete. Key findings identified.") LogType.success w1)
    | Rejected _ => (Normal (mkResearch (Some research_apology) []), w1)
    end.
Proof.
  destruct w. cbv zeta. unfold research, bind, try_catch, generate. cbn.
  by destruct (generateContent env _ _).
Qed.

Lemma validateCode_run (code requirements : JsValue) (config : SystemConfig.t)
    (w : World) :
  let req := validate_request code requirements config in
  let w1 :=
    logged env Validator
      (lit "Performing logical validation on generated artifacts...")
      LogType.info w in
  validateCode env code requirements config addLog w =
    if review_converts code requirements then
      (match generateContent env (length (requests w)) req with
       | Resolved r => Normal (Response.text r)
       | Rejected _ => Normal (Some validation_timed_out)
       end, sent req w1)
    else (Normal (Some validation_timed_out), w1).
Proof.
  destruct w. cbv zeta.
  unfold validateCode, review_prompt, bind, try_catch, generate. cbn.
  destruct (review_converts code requirements); cbn; [|done].
  by destruct (generateContent env _ _).
Qed.

Lemma find_proposal_run (response : option jsstring) (config : SystemConfig.t)
    (w : World) :
  find_proposal env response config w =
    match parse_proposal response with
    | Raised => (Normal None, with_console (console w ++ [no_proposal_warning]) w)
    | NoProposal => (Normal None, w)
    | Proposed p =>
        let req :=
          validate_request (CodeProposal.content p) (CodeProposal.description p)
            config in
        let w1 :=
          logged env Validator
            (lit "Performing logical validation on generated artifacts...")
            LogType.info w in
        (Normal (Some p),
         logged env Validator (lit "Artifact check complete. Health: OPTIMAL.")
           LogType.success
           (if review_converts (CodeProposal.content p) (CodeProposal.description p)
            then
              with_validationReport
                (report_of (generateContent env (length (requests w)) req))
                (sent req w1)
            else with_validationReport (Some validation_timed_out) w1))
    end.
Proof.
  unfold find_proposal. destruct (parse_proposal response) as [| |p]; try done.
  unfold bind, try_catch. rewrite validateCode_run. destruct w. cbn.
  destruct (review_converts _ _); cbn; [|done].
  by destruct (generateContent env _ _).
Qed.

End Runs.

(** ** Approving and discarding a proposal *)

Ltac destruct_world w :=
  destruct w as [wp wc wa wm wi wb wd wq wr ws wt wo wn wk]; cbn in *; subst.

(** The results of the parser, and below a proposal whether its review
    prompt can be built. *)
Ltac parse_cases :=
  rewrite find_proposal_run; destruct (parse_proposal _); cbn;
  try (destruct (review_converts _ _); cbn).

Lemma approveProposal_files (env : Env) (w : World) (p : CodeProposal.t)
    (fileName : jsstring) :
  pendingProposal w = Some p ->
  CodeProposal.fileName p = JString fileName ->
  let files := Project.files (project w) in
  let newFile :=
    ProjectFile.mk fileName (CodeProposal.content p) (language_of fileName) in
  let i := findIndex (fun f => str_eqb fileName (ProjectFile.name f)) files in
  fst (approveProposal env w) = Normal tt
  /\ Project.files (project (snd (approveProposal env w))) =
       if (0 <=? i)%Z then <[Z.to_nat i := newFile]> files
       else files ++ [newFile].
Proof.
  intros Hp Hf. destruct_world w.
  unfold approveProposal, bind. cbn. rewrite Hf. cbn.
  split; [done|]. by destruct (0 <=? _)%Z.
Qed.

(** A proposal whose [fileName] is not a string cannot be approved: the
    handler raises before it changes anything. *)
Lemma approveProposal_not_a_name (env : Env) (w : World) (p : CodeProposal.t) :
  pendingProposal w = Some p ->
  (forall fileName, CodeProposal.fileName p <> JString fileName) ->
  approveProposal env w = (Thrown (Error (typeErrorMessage env)), w).
Proof.
  intros Hp Hf. destruct_world w. unfold approveProposal, bind. cbn.
  destruct (CodeProposal.fileName p) eqn:E; try done. by destruct (Hf s).
Qed.




(** What a discard does: it clears the pending proposal and nothing else;
    the validation report, the files, the chat messages, the activity log
    and the requests sent are what they were. *)
Lemma discard_clears_pending_only (w : World) :
  discardProposal w = (Normal tt, with_pendingProposal None w)
  /\ pendingProposal (with_pendingProposal None w) = None
  /\ validationReport (with_pendingProposal None w) = validationReport w
  /\ project (with_pendingProposal None w) = project w
  /\ messages (with_pendingProposal None w) = messages w
  /\ activity (with_pendingProposal None w) = activity w
  /\ requests (with_pendingProposal None w) = requests w.
Proof. by destruct w. Qed.

(** C3 on a view that shows a proposal with its validation report:
    discarding clears the pending proposal and leaves the files, the chat
    messages and the activity log as they were, but the validation report is
    still there afterwards, whereas [approveProposal] on the same view
    clears it. *)
Theorem discard_keeps_validation_report :
  let w := demo_world [] (Some utils_proposal) (Some (lit "Looks correct.")) in
  let discarded := snd (discardProposal w) in
  let approved := snd (approveProposal env_offline w) in
  pendingProposal w = Some utils_proposal
  /\ pendingProposal discarded = None
  /\ project discarded = project w
  /\ messages discarded = messages w
  /\ activity discarded = activity w
  /\ validationReport discarded = Some (lit "Looks correct.")
  /\ validationReport discarded <> None
  /\ pendingProposal approved = None
  /\ validationReport approved = None.
Proof. by vm_compute. Qed.

Lemma findIndex_lt {A} (p : A -> bool) (l : list A) :
  (findIndex p l < Z.of_nat (length l))%Z.
Proof.
  induction l as [|x l IH]; simpl length; [simpl; lia|].
  simpl findIndex. destruct (p x); [lia|].
  destruct (Z.ltb_spec (findIndex p l) 0); lia.
Qed.

Lemma language_of_dot (stem ext : jsstring) :
  46%N ∉ ext ->
  language_of (stem ++ 46%N :: ext)
  = match ext with [] => lit "txt" | _ :: _ => ext end.
Proof.
  intros H. unfold language_of. rewrite (pop_split_dot stem ext H).
  by destruct ext.
Qed.

Lemma language_of_no_dot (fileName : jsstring) :
  46%N ∉ fileName ->
  language_of fileName
  = match fileName with [] => lit "txt" | _ :: _ => fileName end.
Proof.
  intros H. unfold language_of. rewrite (pop_split_no_dot fileName H).
  by destruct fileName.
Qed.

(** C10, as the code has it: the file [approveProposal] writes carries the
    language tag [language_of fileName]; that is the text after the last dot
    of the name when there is a dot and that text is not empty, the whole
    name when it has no dot and is not empty, and [txt] when the last
    segment is empty: for the empty name and for a name that ends in a
    dot. *)
Theorem language_tag_of_written_file (env : Env) (w : World)
    (p : CodeProposal.t) (fileName : jsstring) :
  pendingProposal w = Some p ->
  CodeProposal.fileName p = JString fileName ->
  let files' := Project.files (project (snd (approveProposal env w))) in
  (exists i,
     files' !! i =
       Some (ProjectFile.mk fileName (CodeProposal.content p)
               (language_of fileName)))
  /\ (forall stem ext,
        fileName = stem ++ 46%N :: ext -> 46%N ∉ ext ->
        language_of fileName = match ext with [] => lit "txt" | _ :: _ => ext end)
  /\ (46%N ∉ fileName ->
      language_of fileName
      = match fileName with [] => lit "txt" | _ :: _ => fileName end).
Proof.
  intros Hp Hf files'.
  destruct (approveProposal_files env w p fileName Hp Hf) as [_ Hfiles].
  fold files' in Hfiles. cbv zeta in Hfiles. split; [|split].
  - set (files := Project.files (project w)) in *.
    set (i := findIndex _ files) in *.
    pose proof (findIndex_lt (fun f => str_eqb fileName (ProjectFile.name f)) files).
    destruct (Z.leb_spec 0 i).
    + exists (Z.to_nat i). rewrite Hfiles. apply list_lookup_insert_eq.
      fold i in H. lia.
    + exists (length files). rewrite Hfiles. by apply list_lookup_middle.
  - intros stem ext -> Hext. by apply language_of_dot.
  - apply language_of_no_dot.
Qed.

Lemma language_tag_of_written_file_witness :
  let w := demo_world [] (Some utils_proposal) None in
  language_of (lit "utils.ts") = lit "ts"
  /\ language_of (lit "Makefile") = lit "Makefile".
Proof.
  split.
  - destruct (language_tag_of_written_file env_proposing
                (demo_world [] (Some utils_proposal) None) utils_proposal
                (lit "utils.ts") eq_refl eq_refl) as (_ & Hdot & _).
    apply (Hdot (lit "utils") (lit "ts") eq_refl).
    by vm_compute; intros H; repeat (apply elem_of_cons in H as [H|H]; [done|]);
       apply elem_of_nil in H.
  - by vm_compute.
Defined.

(** C10 as stated fails on a name that ends in a dot: the name is not empty
    and the text after its last dot is empty, yet the tag is [txt]. *)
Lemma language_tag_trailing_dot :
  let w := demo_world [] (Some notes_proposal) None in
  let files' := Project.files (project (snd (approveProposal env_proposing w))) in
  lit "notes." = lit "notes" ++ 46%N :: []
  /\ lit "notes." <> []
  /\ files' !! 2 = Some (ProjectFile.mk (lit "notes.") (JString (lit "todo")) (lit "txt"))
  /\ lit "txt" <> ([] : jsstring).
Proof. by vm_compute. Qed.

(** ** The model of the conversation call *)

Lemma conduct_sends (env : Env) (prompt context : jsstring) (mode : Mode)
    (config : SystemConfig.t) (w : World) :
  requests (snd (conduct env prompt context mode addLog config w))
  = requests w ++ [conduct_request prompt context mode config].
Proof.
  rewrite conduct_run. destruct_world w.
  by destruct (generateContent env _ _).
Qed.

(** C7: the one request the conversation call sends carries a reasoning
    budget exactly when the mode is precision and the conductor model's
    identifier contains [pro], [gemini-3] or [gemini-2.5]; the budget is
    32768 when the identifier contains [pro] and the smaller 24576
    otherwise; in speed mode, or for an identifier with none of the three,
    the request carries no budget. *)
Theorem thinking_budget_tiers (env : Env)
    (prompt context : jsstring) (mode : Mode) (config : SystemConfig.t)
    (w : World) :
  let request := conduct_request prompt context mode config in
  let budget := GenConfig.thinkingBudget (Request.config request) in
  let contains (needle : jsstring) :=
    exists a b, SystemConfig.conductorModel config = a ++ needle ++ b in
  requests (snd (conduct env prompt context mode addLog config w))
  = requests w ++ [request]
  /\ (is_Some budget <->
     mode = precision /\
     (contains (lit "pro") \/ contains (lit "gemini-3")
      \/ contains (lit "gemini-2.5")))
  /\ (is_Some budget -> contains (lit "pro") -> budget = Some 32768%N)
  /\ (is_Some budget -> ~ contains (lit "pro") -> budget = Some 24576%N)
  /\ (mode = speed -> budget = None)
  /\ (24576 < 32768)%N.
Proof.
  cbv zeta. split; [apply conduct_sends|]. rewrite <- !includes_spec.
  set (m := SystemConfig.conductorModel config).
  unfold conduct_request, thinkingBudget, conduct_model, Request.config,
    GenConfig.thinkingBudget.
  destruct mode; unfold isPrecision; fold m; cbn [andb].
  - destruct (includes m (lit "pro")), (includes m (lit "gemini-3")),
      (includes m (lit "gemini-2.5")); cbn [orb];
      repeat split; try done; try (by eexists); try (by intros [? [=]]);
      try (by intros []); try (by intros _ []); intuition discriminate.
  - repeat split; try done; try (by intros [? [=]]); by intros [[=] _].
Qed.

(** C9: in speed mode the conversation call sends its one request to
    [gemini-flash-lite-latest], and neither the request nor anything else
    the call does depends on the configuration; in precision mode the
    request goes to the configured conductor model. *)
Theorem speed_mode_ignores_conductor_model (env : Env)
    (prompt context : jsstring) (config : SystemConfig.t) (w : World) :
  (exists req,
     requests (snd (conduct env prompt context speed addLog config w))
     = requests w ++ [req]
     /\ Request.model req = lit "gemini-flash-lite-latest")
  /\ (forall config',
        conduct env prompt context speed addLog config' w
        = conduct env prompt context speed addLog config w)
  /\ (exists req,
        requests (snd (conduct env prompt context precision addLog config w))
        = requests w ++ [req]
        /\ Request.model req = SystemConfig.conductorModel config).
Proof.
  split; [|split].
  - eexists. split; [apply conduct_sends|reflexivity].
  - reflexivity.
  - eexists. split; [apply conduct_sends|reflexivity].
Qed.

(** ** Turns of the orchestrator *)

Lemma trim_start_nil (s : jsstring) :
  trim_start s = [] -> Forall (fun c => is_white_space c = true) s.
Proof.
  induction s as [|c s IH]; simpl; [constructor|].
  destruct (is_white_space c) eqn:E; [|done]. intros H. constructor; auto.
Qed.

Lemma trim_start_white (s : jsstring) :
  Forall (fun c => is_white_space c = true) (trim_start s) ->
  Forall (fun c => is_white_space c = true) s.
Proof.
  induction s as [|c s IH]; simpl; [done|].
  destruct (is_white_space c) eqn:E; [|done]. intros H. constructor; auto.
Qed.

Lemma trim_nil (s : jsstring) :
  trim s = [] -> Forall (fun c => is_white_space c = true) s.
Proof.
  unfold trim. intros H. apply trim_start_white.
  rewrite <- (rev_involutive (trim_start s)). apply Forall_rev.
  apply trim_start_nil. rewrite <- (rev_involutive (trim_start _)).
  by rewrite H.
Qed.

Lemma fold_case_white (c : N) : is_white_space c = true -> fold_case c = c.
Proof.
  unfold fold_case.
  destruct (N.leb_spec 65 c) as [Hlo|]; [|done].
  destruct (N.leb_spec c 90) as [Hhi|]; [|done].
  unfold is_white_space.
  repeat (rewrite (proj2 (N.eqb_neq c _)) by lia).
  rewrite (proj2 (N.leb_gt 8192 c)) by lia. done.
Qed.

(** An input that matches the heuristic is not blank. *)
Lemma needsResearch_not_blank (input : jsstring) :
  needsResearch input = true -> trim input <> [].
Proof.
  intros H Hblank. apply trim_nil in Hblank.
  unfold needsResearch in H. apply existsb_exists in H as (k & Hk & Hinc).
  apply includes_spec in Hinc as (a & b & Heq).
  assert (forallb (fun k => match k with
                            | c :: _ => negb (is_white_space c)
                            | [] => false
                            end) research_keywords = true) as Hletters
    by (by vm_compute).
  rewrite forallb_forall in Hletters. specialize (Hletters k Hk).
  destruct k as [|c0 k]; [done|].
  assert (c0 ∈ map fold_case input) as Hin.
  { rewrite Heq. apply elem_of_app. right. by left. }
  apply list_elem_of_fmap in Hin as (c & -> & Hc).
  rewrite Forall_forall in Hblank. specialize (Hblank c Hc).
  rewrite (fold_case_white c Hblank), Hblank in Hletters. done.
Qed.

Ltac enter_turn :=
  unfold handleSendMessage; unfold bind at 1; cbn [get inputValue isProcessing].

Ltac run_turn :=
  unfold bind, try_finally, try_catch; cbn.

Lemma handleSendMessage_blank (env : Env) (w : World) :
  trim (inputValue w) = [] -> handleSendMessage env w = (Normal tt, w).
Proof.
  intros H. enter_turn. by rewrite bool_decide_eq_true_2.
Qed.

Lemma handleSendMessage_busy (env : Env) (w : World) :
  isProcessing w = true -> handleSendMessage env w = (Normal tt, w).
Proof.
  intros H. enter_turn. rewrite H. by rewrite orb_true_r.
Qed.

(** C5: when no turn is in flight, an input that matches the keyword
    heuristic makes the turn send exactly one grounded-search request, and
    that request is followed by the one conversation request (whatever comes
    after is the validation call); an input that does not match sends no
    grounded-search request at all. *)
Theorem research_call_precedes_converse (env : Env) (w : World) :
  isProcessing w = false ->
  let input := inputValue w in
  let w' := snd (handleSendMessage env w) in
  (needsResearch input = true ->
   exists prompt tail,
     let search := research_request input (config w) in
     let conversation :=
       conduct_request prompt (filesContext (project w)) (aiMode w) (config w) in
     requests w' = requests w ++ search :: conversation :: tail
     /\ operation search = groundedSearch
     /\ operation conversation = converse
     /\ Forall (fun req => operation req = reviewArtifact) tail
     /\ calls groundedSearch (search :: conversation :: tail) = 1
     /\ calls converse (search :: conversation :: tail) = 1)
  /\ (needsResearch input = false ->
      exists tail,
        requests w' = requests w ++ tail
        /\ Forall (fun req => operation req <> groundedSearch) tail
        /\ calls groundedSearch tail = 0).
Proof.
  intros Hidle input w'. subst input w'. split; intros Hneeds.
  - pose proof (needsResearch_not_blank _ Hneeds) as Hinput.
    destruct_world w. enter_turn.
    rewrite bool_decide_eq_false_2 by done. run_turn.
    rewrite Hneeds, research_run. cbn.
    destruct (generateContent env _ (research_request _ _)); cbn;
      rewrite conduct_run; cbn;
      destruct (generateContent env _ (conduct_request _ _ _ _)); cbn;
      try parse_cases;
      rewrite <- ?app_assoc; eexists _, _; (split; [reflexivity|]);
      repeat split; repeat constructor.
  - destruct (decide (trim (inputValue w) = [])) as [Hblank|Hinput].
    { rewrite handleSendMessage_blank by done. exists [].
      by rewrite app_nil_r. }
    destruct_world w. enter_turn.
    rewrite bool_decide_eq_false_2 by done. run_turn.
    rewrite Hneeds. cbn. rewrite conduct_run; cbn;
      destruct (generateContent env _ (conduct_request _ _ _ _)); cbn;
      try parse_cases;
      rewrite <- ?app_assoc; eexists; (split; [reflexivity|]);
      (split; [repeat constructor; done|reflexivity]).
Qed.

Lemma conductor_errors_app (a b : list ActivityLog.t) :
  conductor_errors (a ++ b) = conductor_errors a + conductor_errors b.
Proof. unfold conductor_errors. by rewrite List.filter_app, length_app. Qed.

(** C2, as the code has it: when the conversation call is rejected, the turn
    ends without raising, the chat gains the user message and no assistant
    message, the pending proposal is what it was, and the activity log gains
    two error records of the agent Conductor: the gateway's
    [API Exception: ...] and then the orchestrator's [Cluster Error: ...];
    no record before them in this turn is an error. *)
Theorem converse_failure_aborts_turn (env : Env) (w : World) (e : JsError) :
  isProcessing w = false ->
  trim (inputValue w) <> [] ->
  (forall n req, operation req = converse -> generateContent env n req = Rejected e) ->
  let w' := snd (handleSendMessage env w) in
  fst (handleSendMessage env w) = Normal tt
  /\ (exists id,
        messages w' = messages w ++ [ChatMessage.mk id user (inputValue w) None])
  /\ pendingProposal w' = pendingProposal w
  /\ (exists before id1 t1 id2 t2,
        activity w' =
          activity w ++ before
          ++ [ActivityLog.mk id1 t1 Conductor
                (lit "API Exception: " ++ message e) LogType.error;
              ActivityLog.mk id2 t2 Conductor
                (lit "Cluster Error: " ++ message e) LogType.error]
        /\ Forall (fun l => is_error l = false) before)
  /\ conductor_errors (activity w') = conductor_errors (activity w) + 2.
Proof.
  intros Hidle Hinput Hfail w'. subst w'. destruct_world w. enter_turn.
  rewrite bool_decide_eq_false_2 by done. run_turn.
  destruct (needsResearch wi).
  - rewrite research_run. cbn.
    destruct (generateContent env _ (research_request _ _)); cbn;
      rewrite conduct_run; cbn; rewrite Hfail by done; cbn;
      (split; [done|]); (split; [by eexists|]); (split; [done|]);
      rewrite <- ?app_assoc;
      (split; [first [eexists [_; _], _, _, _, _; split; [reflexivity|]
                     |eexists [_; _; _], _, _, _, _; split; [reflexivity|]];
               repeat constructor|]);
      by rewrite conductor_errors_app.
  - cbn. rewrite conduct_run; cbn; rewrite Hfail by done; cbn.
    (split; [done|]); (split; [by eexists|]); (split; [done|]).
    rewrite <- ?app_assoc. split.
    + eexists [_], _, _, _, _. split; [reflexivity|repeat constructor].
    + by rewrite conductor_errors_app.
Qed.

(** A turn never touches the workspace. *)
Lemma handleSendMessage_project (env : Env) (w : World) :
  project (snd (handleSendMessage env w)) = project w.
Proof.
  destruct (decide (trim (inputValue w) = [])) as [Hblank|Hinput].
  { by rewrite handleSendMessage_blank. }
  destruct (isProcessing w) eqn:Hidle.
  { by rewrite handleSendMessage_busy. }
  destruct_world w. enter_turn.
  rewrite bool_decide_eq_false_2 by done. run_turn.
  destruct (needsResearch wi); cbn;
    [rewrite research_run; cbn;
     destruct (generateContent env _ (research_request _ _)); cbn|];
    rewrite conduct_run; cbn;
    destruct (generateContent env _ (conduct_request _ _ _ _)); cbn;
    try parse_cases;
    done.
Qed.

(** A report left over from an earlier proposal plays no role in a turn:
    the turn starts by clearing it. *)
Lemma handleSendMessage_resets_report (env : Env) (w : World)
    (stale : option jsstring) :
  isProcessing w = false ->
  trim (inputValue w) <> [] ->
  snd (handleSendMessage env (with_validationReport stale w))
  = snd (handleSendMessage env w).
Proof.
  intros Hidle Hinput. destruct_world w. enter_turn.
  by rewrite !bool_decide_eq_false_2 by done.
Qed.

(** C8: the view holds at most one pending proposal (the cell is an
    [option]); a turn whose response carries a proposal leaves that proposal
    pending, whatever was pending before, and leaves the project, and with
    it the workspace files, as it was. *)
Theorem new_proposal_replaces_pending (env : Env) (w : World)
    (r : Response.t) (p : CodeProposal.t) :
  isProcessing w = false ->
  trim (inputValue w) <> [] ->
  (forall n req, operation req = converse -> generateContent env n req = Resolved r) ->
  parse_proposal (Response.text r) = Proposed p ->
  let w' := snd (handleSendMessage env w) in
  pendingProposal w' = Some p
  /\ project w' = project w.
Proof.
  intros Hidle Hinput Hanswer Hparse w'. subst w'.
  split; [|apply handleSendMessage_project].
  destruct_world w. enter_turn.
  rewrite bool_decide_eq_false_2 by done. run_turn.
  destruct (needsResearch wi); cbn;
    [rewrite research_run; cbn;
     destruct (generateContent env _ (research_request _ _)); cbn|];
    rewrite conduct_run; cbn; rewrite Hanswer by done; cbn;
    rewrite find_proposal_run, Hparse; cbn;
    by destruct (review_converts _ _).
Qed.

(** C6: when the research and validation requests are rejected, [research]
    returns the fixed apology with no sources and [validateCode] returns the
    fixed timed-out text, neither raising; and the turn goes on: after a
    failed research the conversation request is sent with the apology as its
    findings, and after a failed validation the turn completes with the
    timed-out text as the report, the proposal pending and the assistant
    message appended. *)
Theorem advisory_failures_degrade (env : Env) (e : JsError) :
  (forall n req, operation req <> converse -> generateContent env n req = Rejected e) ->
  (forall query config w,
     exists w',
       research env query config addLog w
       = (Normal (mkResearch (Some research_apology) []), w'))
  /\ (forall code requirements config w,
        exists w',
          validateCode env code requirements config addLog w
          = (Normal (Some validation_timed_out), w'))
  /\ (forall w,
        isProcessing w = false ->
        needsResearch (inputValue w) = true ->
        exists tail,
          requests (snd (handleSendMessage env w)) =
            requests w
            ++ research_request (inputValue w) (config w)
               :: conduct_request
                    (lit "Research Findings:" ++ LF ++ research_apology ++ LF ++ LF
                     ++ lit "Original Request: " ++ inputValue w)
                    (filesContext (project w)) (aiMode w) (config w)
               :: tail)
  /\ (forall w r p,
        isProcessing w = false ->
        trim (inputValue w) <> [] ->
        (forall n req, operation req = converse ->
                       generateContent env n req = Resolved r) ->
        parse_proposal (Response.text r) = Proposed p ->
        let w' := snd (handleSendMessage env w) in
        fst (handleSendMessage env w) = Normal tt
        /\ validationReport w' = Some validation_timed_out
        /\ pendingProposal w' = Some p
        /\ exists earlier id content,
             messages w' =
               earlier ++ [ChatMessage.mk id assistant content (Some p)]).
Proof.
  intros Hdown. split; [|split; [|split]].
  - intros query config w. rewrite research_run, Hdown by done. by eexists.
  - intros code requirements config w.
    rewrite validateCode_run.
    destruct (review_converts _ _); [rewrite Hdown by done|]; by eexists.
  - intros w Hidle Hneeds.
    pose proof (needsResearch_not_blank _ Hneeds) as Hinput.
    destruct_world w. enter_turn.
    rewrite bool_decide_eq_false_2 by done. run_turn.
    rewrite Hneeds, research_run, Hdown by done. cbn.
    rewrite conduct_run; cbn;
      destruct (generateContent env _ (conduct_request _ _ _ _)); cbn;
      try parse_cases;
      rewrite <- ?app_assoc; eexists; reflexivity.
  - intros w r p Hidle Hinput Hanswer Hparse w'. subst w'.
    destruct_world w. enter_turn.
    rewrite bool_decide_eq_false_2 by done. run_turn.
    destruct (needsResearch wi); cbn;
      [rewrite research_run, Hdown by done; cbn|];
      rewrite conduct_run; cbn; rewrite Hanswer by done; cbn;
      rewrite find_proposal_run, Hparse; cbn;
      destruct (review_converts _ _); cbn; rewrite ?Hdown by done; cbn;
      repeat split; by eexists _, _, _.
Qed.

(** ** The proposal parser *)

Lemma strict_eq_string_spec (v : JsValue) (s : jsstring) :
  strict_eq_string v s = true <-> v = JString s.
Proof.
  destruct v; simpl; try (split; [discriminate|congruence]).
  unfold str_eqb. rewrite bool_decide_eq_true. split; congruence.
Qed.

(** The parser swallows what its [try] block raises. *)
Lemma find_proposal_completes (env : Env) (response : option jsstring)
    (config : SystemConfig.t) (w : World) :
  exists w',
    find_proposal env response config w =
      (Normal match parse_proposal response with
              | Proposed p => Some p
              | _ => None
              end, w').
Proof.
  rewrite find_proposal_run. destruct (parse_proposal response); by eexists.
Qed.

(** What the parser makes of a first block that parses to an object whose
    [action] is [propose_code]: a field the object lacks comes out
    [undefined]. *)
Lemma parse_proposal_first_block (pre body post : jsstring)
    (ms : list (jsstring * JsValue)) :
  find_sub json_fence_open (pre ++ json_fence_open) = Some (pre, []) ->
  find_sub json_fence_close (body ++ json_fence_close) = Some (body, []) ->
  JSON_parse body = Some (JObject ms) ->
  last_member (lit "action") ms = Some (JString (lit "propose_code")) ->
  parse_proposal
    (Some (pre ++ json_fence_open ++ body ++ json_fence_close ++ post))
  = Proposed
      (CodeProposal.mk
         (default JUndefined (last_member (lit "fileName") ms))
         (default JUndefined (last_member (lit "content") ms))
         (default JUndefined (last_member (lit "description") ms))).
Proof.
  intros Hopen Hclose Hjson Haction. unfold parse_proposal.
  rewrite (jsonMatch_first_block pre body post Hopen Hclose), Hjson.
  cbn [get_property]. rewrite Haction. cbn [default from_option id strict_eq_string].
  unfold str_eqb. by rewrite bool_decide_eq_true_2.
Qed.

(** X20: when the first fenced json block of a response (from the leftmost
    opening fence to the first closing fence after it) parses to an object
    that has [action] equal to [propose_code] and the fields [fileName],
    [content] and [description], the parser yields the proposal made of
    exactly these three fields, whatever precedes and follows the block;
    when the block is not JSON or its value has another [action] (or none),
    it yields no proposal; when the response holds no complete block (no
    opening fence, or no closing fence after it) or is [undefined], it finds
    none; and the parser never raises. *)
Theorem proposal_from_first_block :
  (forall pre body post ms fileName content description,
     find_sub json_fence_open (pre ++ json_fence_open) = Some (pre, []) ->
     find_sub json_fence_close (body ++ json_fence_close) = Some (body, []) ->
     JSON_parse body = Some (JObject ms) ->
     last_member (lit "action") ms = Some (JString (lit "propose_code")) ->
     last_member (lit "fileName") ms = Some fileName ->
     last_member (lit "content") ms = Some content ->
     last_member (lit "description") ms = Some description ->
     parse_proposal
       (Some (pre ++ json_fence_open ++ body ++ json_fence_close ++ post))
     = Proposed (CodeProposal.mk fileName content description))
  /\ (forall pre body post,
        find_sub json_fence_open (pre ++ json_fence_open) = Some (pre, []) ->
        find_sub json_fence_close (body ++ json_fence_close) = Some (body, []) ->
        (JSON_parse body = None
         \/ exists data,
              JSON_parse body = Some data
              /\ get_property data (lit "action")
                 <> Some (JString (lit "propose_code"))) ->
        forall p,
          parse_proposal
            (Some (pre ++ json_fence_open ++ body ++ json_fence_close ++ post))
          <> Proposed p)
  /\ (forall response,
        (forall pre body post,
           response
           <> pre ++ json_fence_open ++ body ++ json_fence_close ++ post) ->
        parse_proposal (Some response) = NoProposal)
  /\ parse_proposal None = NoProposal
  /\ (forall env response config w,
        exists w',
          find_proposal env response config w =
            (Normal match parse_proposal response with
                    | Proposed p => Some p
                    | _ => None
                    end, w')).
Proof.
  split; [|split; [|split; [|split]]].
  - intros pre body post ms fileName content description
      Hopen Hclose Hjson Haction Hname Hcontent Hdescription.
    rewrite (parse_proposal_first_block pre body post ms Hopen Hclose Hjson Haction).
    by rewrite Hname, Hcontent, Hdescription.
  - intros pre body post Hopen Hclose Hbad p.
    unfold parse_proposal.
    rewrite (jsonMatch_first_block pre body post Hopen Hclose).
    destruct Hbad as [->|(data & -> & Haction)]; [done|].
    destruct (get_property data (lit "action")) as [action|]; [|done].
    destruct (strict_eq_string action (lit "propose_code")) eqn:E; [|done].
    apply strict_eq_string_spec in E. congruence.
  - intros response Hnone. unfold parse_proposal.
    by rewrite (jsonMatch_no_block response Hnone).
  - reflexivity.
  - apply find_proposal_completes.
Qed.

Lemma proposal_from_first_block_witness :
  parse_proposal
    (Some (lit "Here is the change." ++ LF ++ fenced utils_block ++ LF
           ++ lit "and a second one" ++ LF ++ fenced notes_block))
  = Proposed utils_proposal
  /\ parse_proposal (Some (lit "Cut off: " ++ json_fence_open ++ utils_block))
     = NoProposal.
Proof.
  destruct proposal_from_first_block as (Hfirst & _ & Hnone & _).
  split.
  - exact (Hfirst (lit "Here is the change." ++ LF) utils_block
             (LF ++ lit "and a second one" ++ LF ++ fenced notes_block)
             [(lit "action", JString (lit "propose_code"));
              (lit "fileName", JString (lit "utils.ts"));
              (lit "content", JString (lit "export const id = 1"));
              (lit "description", JString (lit "add id"))]
             (JString (lit "utils.ts")) (JString (lit "export const id = 1"))
             (JString (lit "add id"))
             eq_refl eq_refl eq_refl eq_refl eq_refl eq_refl eq_refl).
  - apply Hnone. intros pre body post Heq.
    assert (includes (lit "Cut off: " ++ json_fence_open ++ utils_block)
              json_fence_close = true) as Hclosed.
    { apply includes_spec. exists (pre ++ json_fence_open ++ body), post.
      by rewrite Heq, <- !app_assoc. }
    by vm_compute in Hclosed.
Defined.

(** C4: on a block that has the action and none of the three fields, a
    malformed block by the format of the specification, the parser yields a
    proposal where the claim has none: its three fields are [undefined],
    against the declaration of [CodeProposal], and it becomes the pending
    one. *)
Lemma bare_action_block_yields_proposal :
  let body := quoted "{'action':'propose_code'}" in
  let bare := CodeProposal.mk JUndefined JUndefined JUndefined in
  let w := demo_world (lit "add a helper") None None in
  jsonMatch (fenced body) = Some body
  /\ JSON_parse body = Some (JObject [(lit "action", JString (lit "propose_code"))])
  /\ spec_block_has_fields
       (JObject [(lit "action", JString (lit "propose_code"))]) = false
  /\ parse_proposal (Some (fenced body)) = Proposed bare
  /\ parse_proposal (Some (fenced body)) <> NoProposal
  /\ pendingProposal (snd (handleSendMessage env_bare_action w)) = Some bare.
Proof. by vm_compute. Qed.

(** ** The theorems at work on the sample runs *)

Lemma thinking_budget_tiers_witness :
  GenConfig.thinkingBudget
    (Request.config (conduct_request (lit "hi") (lit "No files yet.") precision
                       initial_config))
  = Some 32768%N.
Proof.
  destruct (thinking_budget_tiers env_offline (lit "hi") (lit "No files yet.")
              precision initial_config (demo_world (lit "hi") None None))
    as (_ & Hiff & Hpro & _).
  assert (exists a b,
            SystemConfig.conductorModel initial_config = a ++ lit "pro" ++ b)
    as Hcontains by (by exists (lit "gemini-3-"), (lit "-preview")).
  apply Hpro; [|exact Hcontains].
  apply Hiff. split; [reflexivity|]. left. exact Hcontains.
Defined.

Lemma research_call_precedes_converse_witness :
  let w := demo_world (lit "What is the capital of France?") None None in
  exists prompt tail,
    let search := research_request (inputValue w) (config w) in
    let conversation :=
      conduct_request prompt (filesContext (project w)) (aiMode w) (config w) in
    requests (snd (handleSendMessage env_proposing w))
    = requests w ++ search :: conversation :: tail
    /\ operation search = groundedSearch
    /\ operation conversation = converse
    /\ Forall (fun req => operation req = reviewArtifact) tail
    /\ calls groundedSearch (search :: conversation :: tail) = 1
    /\ calls converse (search :: conversation :: tail) = 1.
Proof.
  exact (proj1 (research_call_precedes_converse env_proposing
                  (demo_world (lit "What is the capital of France?") None None)
                  eq_refl) eq_refl).
Defined.

Lemma converse_failure_aborts_turn_witness :
  let w := demo_world (lit "hello") (Some notes_proposal) None in
  let w' := snd (handleSendMessage env_offline w) in
  pendingProposal w' = Some notes_proposal
  /\ conductor_errors (activity w') = 2.
Proof.
  assert (trim (lit "hello") <> []) as Hinput by (by vm_compute).
  destruct (converse_failure_aborts_turn env_offline
              (demo_world (lit "hello") (Some notes_proposal) None)
              network_error eq_refl Hinput (fun _ _ _ => eq_refl))
    as (_ & _ & Hpending & _ & Hcount).
  split; [exact Hpending|exact Hcount].
Defined.

(** C2 as stated fails: with the API unreachable, one turn appends two
    error records of the agent Conductor, not one. *)
Lemma converse_failure_logs_two_errors :
  let w := demo_world (lit "hello") None None in
  let w' := snd (handleSendMessage env_offline w) in
  generateContent env_offline 0
    (conduct_request (lit "hello") (filesContext demo_project) precision
       initial_config)
  = Rejected network_error
  /\ requests w' =
       [conduct_request (lit "hello") (filesContext demo_project) precision
          initial_config]
  /\ map ChatMessage.role (messages w') = [user]
  /\ conductor_errors (activity w) = 0
  /\ conductor_errors (activity w') = 2
  /\ conductor_errors (activity w') <> 1.
Proof. by vm_compute. Qed.

Lemma new_proposal_replaces_pending_witness :
  let w := demo_world (lit "add an id helper") (Some notes_proposal) None in
  let w' := snd (handleSendMessage env_proposing w) in
  pendingProposal w = Some notes_proposal
  /\ pendingProposal w' = Some utils_proposal
  /\ project w' = demo_project.
Proof.
  assert (trim (lit "add an id helper") <> []) as Hinput by (by vm_compute).
  split; [reflexivity|].
  exact (new_proposal_replaces_pending env_proposing
           (demo_world (lit "add an id helper") (Some notes_proposal) None)
           (Response.mk
              (Some (lit "Here is the change." ++ LF ++ fenced utils_block ++ LF
                     ++ lit "and a second one" ++ LF ++ fenced notes_block))
              None)
           utils_proposal eq_refl Hinput (fun _ _ _ => eq_refl)
           eq_refl).
Defined.

Lemma advisors_down_rejects (n : nat) (req : Request.t) :
  operation req <> converse ->
  generateContent env_advisors_down n req = Rejected network_error.
Proof. intros H. cbn. by destruct (operation req). Qed.

Lemma advisory_failures_degrade_witness :
  let w := demo_world (lit "search the docs, then add an id helper") None None in
  let w' := snd (handleSendMessage env_advisors_down w) in
  fst (handleSendMessage env_advisors_down w) = Normal tt
  /\ validationReport w' = Some validation_timed_out
  /\ pendingProposal w' = Some utils_proposal
  /\ exists earlier id content,
       messages w' =
         earlier ++ [ChatMessage.mk id assistant content (Some utils_proposal)].
Proof.
  assert (trim (lit "search the docs, then add an id helper") <> [])
    as Hinput by (by vm_compute).
  destruct (advisory_failures_degrade env_advisors_down network_error
              advisors_down_rejects) as (_ & _ & _ & Hturn).
  apply (Hturn (demo_world (lit "search the docs, then add an id helper") None None)
           (Response.mk (Some (lit "Done." ++ LF ++ fenced utils_block)) None)
           utils_proposal eq_refl Hinput).
  - intros n req Hop. cbn. by rewrite Hop.
  - reflexivity.
Defined.

(** * Further properties of the code *)

(** ** Turns *)

(** Every path a running turn can take: the research call, when the
    heuristic asks for it, resolved or rejected; the conversation call
    resolved or rejected; the parser's three results. *)
Ltac explore_turn env wi :=
  destruct (needsResearch wi) eqn:Hneeds; cbn;
  [rewrite research_run; cbn;
   destruct (generateContent env _ (research_request _ _)) eqn:Hresearch; cbn|];
  rewrite conduct_run; cbn;
  (destruct (generateContent env _ (conduct_request _ _ _ _)) eqn:Hconverse; cbn;
   [rewrite find_proposal_run;
    destruct (parse_proposal _) eqn:Hparse; cbn;
    try (destruct (review_converts _ _) eqn:Hconverts; cbn)|]).

Ltac start_turn w :=
  destruct_world w; enter_turn;
  rewrite bool_decide_eq_false_2 by done; run_turn.

Lemma handleSendMessage_completes (env : Env) (w : World) :
  fst (handleSendMessage env w) = Normal tt
  /\ isProcessing (snd (handleSendMessage env w)) = isProcessing w.
Proof.
  destruct (decide (trim (inputValue w) = [])) as [Hblank|Hinput].
  { by rewrite handleSendMessage_blank. }
  destruct (isProcessing w) eqn:Hidle.
  { rewrite handleSendMessage_busy by done. by split. }
  start_turn w. explore_turn env wi; done.
Qed.

(** X1: a turn never raises, whatever the API does, and it leaves the
    in-flight flag as it found it: an idle view is idle again after the
    turn on every path, the failing ones included. *)
Theorem turn_completes_and_releases_gate (env : Env) (w : World) :
  fst (handleSendMessage env w) = Normal tt
  /\ (isProcessing w = false ->
      isProcessing (snd (handleSendMessage env w)) = false)
  /\ (isProcessing w = true ->
      isProcessing (snd (handleSendMessage env w)) = true).
Proof.
  destruct (handleSendMessage_completes env w) as [Hnormal Hflag].
  rewrite Hflag. by repeat split.
Qed.

Lemma trim_start_all_white (s : jsstring) :
  Forall (fun c => is_white_space c = true) s -> trim_start s = [].
Proof.
  induction 1 as [|c s Hc _ IH]; simpl; [done|]. by rewrite Hc.
Qed.

Lemma trim_white (s : jsstring) :
  Forall (fun c => is_white_space c = true) s -> trim s = [].
Proof. intros H. unfold trim. by rewrite (trim_start_all_white s H). Qed.

(** X2: the Transmit button is disabled exactly when the handler would
    do nothing: with a disabled button (blank input or a turn in flight)
    [handleSendMessage], which the Enter key still reaches, changes nothing,
    and with an enabled one it changes the view.  An input of white space
    only is blank. *)
Theorem send_disabled_iff_noop (env : Env) (w : World) :
  (sendDisabled w = true <-> handleSendMessage env w = (Normal tt, w))
  /\ (Forall (fun c => is_white_space c = true) (inputValue w) ->
      sendDisabled w = true).
Proof.
  split.
  - unfold sendDisabled. split.
    + intros H. apply orb_true_iff in H as [H|H].
      * apply bool_decide_eq_true in H. by apply handleSendMessage_blank.
      * by apply handleSendMessage_busy.
    + intros Hnoop.
      destruct (decide (trim (inputValue w) = [])) as [Hblank|Hinput].
      { by rewrite bool_decide_eq_true_2. }
      destruct (isProcessing w) eqn:Hidle; [by rewrite orb_true_r|].
      exfalso. assert (length (messages (snd (handleSendMessage env w)))
                       = length (messages w)) as Hlen by (by rewrite Hnoop).
      revert Hlen. clear Hnoop. start_turn w.
      explore_turn env wi; rewrite ?length_app; simpl; lia.
  - intros H. unfold sendDisabled. by rewrite (trim_white _ H).
Qed.

Lemma new_requests_app (w w' : World) (tail : list Request.t) :
  requests w' = requests w ++ tail -> new_requests w w' = tail.
Proof. intros H. unfold new_requests. by rewrite H, drop_app_length. Qed.

(** X3: when the conversation call answers, a running turn appends to the
    chat the user message and then one assistant message, and nothing else;
    the assistant message carries the response text, or the fixed
    placeholder when that text is empty or undefined, and the proposal the
    parser found, if any; and the input box is emptied. *)
Theorem answered_turn_messages (env : Env) (w : World) (r : Response.t) :
  isProcessing w = false ->
  trim (inputValue w) <> [] ->
  (forall n req, operation req = converse -> generateContent env n req = Resolved r) ->
  let w' := snd (handleSendMessage env w) in
  (exists id1 id2,
     messages w' =
       messages w
       ++ [ChatMessage.mk id1 user (inputValue w) None;
           ChatMessage.mk id2 assistant
             (or_else (Response.text r) (lit "Cluster returned empty response."))
             match parse_proposal (Response.text r) with
             | Proposed p => Some p
             | _ => None
             end])
  /\ inputValue w' = []
  /\ (Response.text r = None \/ Response.text r = Some [] ->
      exists earlier id,
        messages w' =
          earlier ++ [ChatMessage.mk id assistant
                        (lit "Cluster returned empty response.") None]).
Proof.
  intros Hidle Hinput Hanswer w'. subst w'. start_turn w.
  destruct (needsResearch wi); cbn;
    [rewrite research_run; cbn;
     destruct (generateContent env _ (research_request _ _)); cbn|];
    rewrite conduct_run; cbn; rewrite Hanswer by done; cbn;
    rewrite find_proposal_run;
    (split; [|split]);
    try (intros [Htext|Htext]; rewrite Htext; cbn; rewrite <- ?app_assoc;
         by eexists (_ ++ [_]), _);
    destruct (parse_proposal (Response.text r)); cbn;
    try (destruct (review_converts _ _); cbn);
    rewrite <- ?app_assoc; try done; by eexists _, _.
Qed.

(** X4: when the conversation call answers with a proposal whose content
    and description have strings (every value but an object with a member
    named [toString], or an array that holds one), the validation request
    is sent: it is the last request of the turn, it goes to the validator
    model with the proposal's content and description, and what it returns
    is the report shown with the proposal.  With a content or description
    that has no string the review prompt raises before any request is made:
    no validation request is sent and the report is the fixed timed-out
    text.  Without a proposal no validation request is sent, no report is
    left and the pending proposal is what it was. *)
Theorem validation_iff_proposal (env : Env) (w : World) (r : Response.t) :
  isProcessing w = false ->
  trim (inputValue w) <> [] ->
  (forall n req, operation req = converse -> generateContent env n req = Resolved r) ->
  let w' := snd (handleSendMessage env w) in
  match parse_proposal (Response.text r) with
  | Proposed p =>
      let req :=
        validate_request (CodeProposal.content p) (CodeProposal.description p)
          (config w) in
      (ToString_completes (CodeProposal.description p) = true ->
       ToString_completes (CodeProposal.content p) = true ->
       calls reviewArtifact (new_requests w w') = 1
       /\ (exists earlier, requests w' = earlier ++ [req])
       /\ Request.model req = SystemConfig.validatorModel (config w)
       /\ validationReport w'
          = report_of (generateContent env (length (requests w') - 1) req))
      /\ (ToString_completes (CodeProposal.description p) = false
          \/ ToString_completes (CodeProposal.content p) = false ->
          calls reviewArtifact (new_requests w w') = 0
          /\ validationReport w' = Some validation_timed_out)
      /\ pendingProposal w' = Some p
  | _ =>
      calls reviewArtifact (new_requests w w') = 0
      /\ validationReport w' = None
      /\ pendingProposal w' = pendingProposal w
  end.
Proof.
  intros Hidle Hinput Hanswer w'. subst w'. start_turn w.
  destruct (needsResearch wi); cbn;
    [rewrite research_run; cbn;
     destruct (generateContent env _ (research_request _ _)); cbn|];
    rewrite conduct_run; cbn; rewrite Hanswer by done; cbn;
    rewrite find_proposal_run;
    destruct (parse_proposal (Response.text r)) as [| |p]; cbn;
    rewrite <- ?app_assoc, ?drop_app_length; try done;
    unfold review_converts;
    destruct (ToString_completes (CodeProposal.description p)),
      (ToString_completes (CodeProposal.content p)); cbn;
    rewrite <- ?app_assoc, ?drop_app_length;
    (split; [intros Hd Hc|split; [intros [Hd|Hc]|done]]); try done;
    repeat split; try done;
    try first [by (eexists (_ ++ [_; _]); rewrite <- app_assoc)
              |by (eexists (_ ++ [_]); rewrite <- app_assoc)];
    do 2 f_equal; rewrite ?length_app; simpl; lia.
Qed.

(** X5: in a turn whose input matches the heuristic and whose research call
    answers, the sources of the answer (the [web] entries of the first
    candidate's grounding chunks) are put in front of the sources gathered
    so far, and the conversation prompt is the findings followed by the
    original request; a failed research call adds no source; in a turn whose
    input does not match, the sources stay and the prompt is the input
    itself. *)
Theorem research_feeds_the_conversation (env : Env) (w : World) :
  isProcessing w = false ->
  trim (inputValue w) <> [] ->
  let input := inputValue w in
  let w' := snd (handleSendMessage env w) in
  let conversation prompt :=
    conduct_request prompt (filesContext (project w)) (aiMode w) (config w) in
  (needsResearch input = true ->
   forall r,
     (forall n req, operation req = groundedSearch ->
                    generateContent env n req = Resolved r) ->
     researchSources w' = grounding_sources r ++ researchSources w
     /\ conversation
          (lit "Research Findings:" ++ LF ++ interpolate (Response.text r)
           ++ LF ++ LF ++ lit "Original Request: " ++ input)
        ∈ new_requests w w')
  /\ (needsResearch input = true ->
      forall e,
        (forall n req, operation req = groundedSearch ->
                       generateContent env n req = Rejected e) ->
        researchSources w' = researchSources w)
  /\ (needsResearch input = false ->
      researchSources w' = researchSources w
      /\ conversation input ∈ new_requests w w').
Proof.
  intros Hidle Hinput input w' conversation. subst input w' conversation.
  start_turn w. split; [|split]; intros Hneeds; rewrite Hneeds.
  - intros r Hfound. rewrite research_run, Hfound by done. cbn.
    rewrite conduct_run; cbn;
      destruct (generateContent env _ (conduct_request _ _ _ _)); cbn;
      try parse_cases;
      (split; [done|]); unfold new_requests; cbn;
      rewrite <- ?app_assoc, drop_app_length; repeat constructor.
  - intros e Hdown. rewrite research_run, Hdown by done. cbn.
    rewrite conduct_run; cbn;
      destruct (generateContent env _ (conduct_request _ _ _ _)); cbn;
      try parse_cases;
      done.
  - cbn. rewrite conduct_run; cbn;
      destruct (generateContent env _ (conduct_request _ _ _ _)); cbn;
      try parse_cases;
      (split; [done|]); unfold new_requests; cbn;
      rewrite <- ?app_assoc, drop_app_length; repeat constructor.
Qed.

(** X6: no gateway call reads the configured coder model or the grounding
    engine id: with other values in these two fields a turn sends the same
    requests and ends in the same state (up to the two fields
    themselves). *)
Theorem coder_model_and_engine_id_unused (env : Env) (w : World)
    (coder : jsstring) (engine : option jsstring) :
  let changed c := with_unused_fields coder engine c in
  handleSendMessage env (with_config (changed (config w)) w)
  = (fst (handleSendMessage env w),
     with_config (changed (config w)) (snd (handleSendMessage env w))).
Proof.
  cbv zeta. destruct_world w. destruct wc as [cm rm km vm se].
  unfold handleSendMessage, with_unused_fields.
  unfold bind, try_finally, try_catch. cbn.
  destruct (bool_decide (trim wi = []) || wb); [done|]. cbn.
  destruct (needsResearch wi); cbn;
    [rewrite !research_run; unfold research_request; cbn;
     destruct (generateContent env _ _); cbn|];
    rewrite !conduct_run; unfold conduct_request, conduct_model; cbn;
    (destruct (generateContent env _ _); cbn; [|done]);
    rewrite !find_proposal_run; destruct (parse_proposal _); cbn; try done;
    (destruct (review_converts _ _); cbn; [|done]);
    unfold validate_request; cbn; by destruct (generateContent env _ _).
Qed.

(** ** Approval *)

(** X7: approving a pending proposal with a file name completes without
    raising; it closes the checkpoint (no pending proposal, no report),
    appends one system message naming the file to the chat and one success
    record of the Validator to the activity log, sends no request, and keeps
    the project's id, name and creation time.  Without a pending proposal
    the handler does nothing. *)
Theorem approve_view_effects (env : Env) (w : World) :
  (forall p fileName,
     pendingProposal w = Some p ->
     CodeProposal.fileName p = JString fileName ->
     let w' := snd (approveProposal env w) in
     fst (approveProposal env w) = Normal tt
     /\ pendingProposal w' = None
     /\ validationReport w' = None
     /\ (exists id,
           messages w' =
             messages w
             ++ [ChatMessage.mk id system
                   (lit "Integrated changes to workspace: " ++ fileName) None])
     /\ (exists id t,
           activity w' =
             activity w
             ++ [ActivityLog.mk id t Validator
                   (lit "Persisted " ++ fileName ++ lit " to workspace.")
                   LogType.success])
     /\ requests w' = requests w
     /\ Project.id (project w') = Project.id (project w)
     /\ Project.name (project w') = Project.name (project w)
     /\ Project.createdAt (project w') = Project.createdAt (project w))
  /\ (pendingProposal w = None -> approveProposal env w = (Normal tt, w)).
Proof.
  split.
  - intros p fileName Hp Hf w'. subst w'. destruct_world w.
    unfold approveProposal, bind. cbn. rewrite Hf. cbn.
    repeat split; first [done|by eexists|by eexists _, _].
  - intros Hp. destruct_world w. done.
Qed.

Lemma map_name_insert (files : list ProjectFile.t) (i : nat)
    (f g : ProjectFile.t) :
  files !! i = Some f -> ProjectFile.name g = ProjectFile.name f ->
  map ProjectFile.name (<[i := g]> files) = map ProjectFile.name files.
Proof.
  intros Hi Hname. rewrite list_fmap_insert, Hname.
  apply list_insert_id. by rewrite list_lookup_fmap, Hi.
Qed.

Lemma findIndex_case {A} (p : A -> bool) (l : list A) :
  (findIndex p l = (-1)%Z /\ forall x, x ∈ l -> p x = false)
  \/ (exists i x, findIndex p l = Z.of_nat i /\ l !! i = Some x /\ p x = true
                  /\ forall j y, j < i -> l !! j = Some y -> p y = false).
Proof.
  induction l as [|z l IH]; simpl.
  - left. split; [done|]. intros x Hx. by apply elem_of_nil in Hx.
  - destruct (p z) eqn:Hz.
    + right. exists 0, z. repeat split; try done. intros j y Hj. lia.
    + destruct IH as [[-> Hnone]|(i & x & -> & Hi & Hx & Hlt)].
      * left. split; [done|]. intros x Hx.
        apply elem_of_cons in Hx as [->|Hx]; auto.
      * right. exists (S i), x.
        replace (Z.of_nat i <? 0)%Z with false by (symmetry; apply Z.ltb_ge; lia).
        split; [lia|]. repeat split; try done.
        intros [|j] y Hj Hy; simpl in Hy; [by injection Hy as <-|].
        apply (Hlt j y); [lia|done].
Qed.

(** X8: approval never removes or renames a file: the list of file names
    afterwards is the list before, with the proposal's name added at the end
    when no file had it.  So file names that were pairwise different stay
    pairwise different, and the number of files grows by at most one. *)
Theorem approve_keeps_names (env : Env) (w : World) (p : CodeProposal.t)
    (fileName : jsstring) :
  pendingProposal w = Some p ->
  CodeProposal.fileName p = JString fileName ->
  let names := file_names (project w) in
  let names' := file_names (project (snd (approveProposal env w))) in
  names' = (if bool_decide (fileName ∈ names) then names else names ++ [fileName])
  /\ (NoDup names -> NoDup names')
  /\ length names <= length names' <= S (length names).
Proof.
  intros Hp Hf names names'.
  assert (names' = if bool_decide (fileName ∈ names) then names
                   else names ++ [fileName]) as Hnames.
  { subst names names'. unfold file_names.
    destruct (approveProposal_files env w p fileName Hp Hf) as [_ ->].
    set (files := Project.files (project w)).
    destruct (findIndex_case
                (fun f => str_eqb fileName (ProjectFile.name f)) files)
      as [[-> Hnone]|(i & f & -> & Hi & Hf' & _)].
    - cbn. rewrite bool_decide_eq_false_2.
      + by rewrite map_app.
      + intros Hin. apply list_elem_of_fmap in Hin as (f & -> & Hin).
        specialize (Hnone f Hin). unfold str_eqb in Hnone.
        by apply bool_decide_eq_false in Hnone.
    - replace (0 <=? Z.of_nat i)%Z with true by (symmetry; apply Z.leb_le; lia).
      rewrite Nat2Z.id. unfold str_eqb in Hf'. apply bool_decide_eq_true in Hf'.
      rewrite (map_name_insert files i f) by done.
      rewrite bool_decide_eq_true_2; [done|].
      apply list_elem_of_fmap. exists f. split; [done|].
      by eapply list_elem_of_lookup_2. }
  split; [done|]. rewrite Hnames. case_bool_decide as Hin.
  - split; [done|lia].
  - split.
    + intros Hnodup. apply NoDup_app. split; [done|]. split.
      * intros x Hx Hx'. apply list_elem_of_singleton in Hx'. by subst.
      * apply NoDup_singleton.
    + rewrite length_app. simpl. lia.
Qed.

Lemma findIndex_after_approval (fileName : jsstring)
    (files : list ProjectFile.t) (newFile : ProjectFile.t) :
  ProjectFile.name newFile = fileName ->
  let i := findIndex (fun f => str_eqb fileName (ProjectFile.name f)) files in
  let files' :=
    if (0 <=? i)%Z then <[Z.to_nat i := newFile]> files else files ++ [newFile] in
  exists k,
    findIndex (fun f => str_eqb fileName (ProjectFile.name f)) files'
    = Z.of_nat k
    /\ files' !! k = Some newFile.
Proof.
  intros Hname i files'. subst i files'.
  assert (str_eqb fileName (ProjectFile.name newFile) = true) as Hnew.
  { unfold str_eqb. by apply bool_decide_eq_true_2. }
  destruct (findIndex_case
              (fun f => str_eqb fileName (ProjectFile.name f)) files)
    as [[-> Hnone]|(i & f & -> & Hi & Hf & Hlt)].
  - cbn. exists (length files).
    assert ((files ++ [newFile]) !! length files = Some newFile) as Hlast
      by (by apply list_lookup_middle).
    split; [|done]. apply (findIndex_found _ _ _ newFile); try done.
    intros j y Hj Hy. rewrite lookup_app_l in Hy by done.
    apply Hnone. by eapply list_elem_of_lookup_2.
  - replace (0 <=? Z.of_nat i)%Z with true by (symmetry; apply Z.leb_le; lia).
    rewrite Nat2Z.id. exists i.
    assert (<[i := newFile]> files !! i = Some newFile) as Hat.
    { apply list_lookup_insert_eq. by eapply lookup_lt_Some. }
    split; [|done]. apply (findIndex_found _ _ _ newFile); try done.
    intros j y Hj Hy. rewrite list_lookup_insert_ne in Hy by lia.
    by apply (Hlt j y).
Qed.

(** X9: after an approval the file found under the proposal's name (by the
    same [findIndex] search the handler uses) is the proposal's file, with
    its content; and approving the same proposal once more, in whatever
    view shows these files, changes no file. *)
Theorem approve_then_lookup (env : Env) (w : World) (p : CodeProposal.t)
    (fileName : jsstring) :
  pendingProposal w = Some p ->
  CodeProposal.fileName p = JString fileName ->
  let files' := Project.files (project (snd (approveProposal env w))) in
  let newFile :=
    ProjectFile.mk fileName (CodeProposal.content p) (language_of fileName) in
  (exists k,
     findIndex (fun f => str_eqb fileName (ProjectFile.name f)) files'
     = Z.of_nat k
     /\ files' !! k = Some newFile)
  /\ (forall env2 w2,
        pendingProposal w2 = Some p ->
        Project.files (project w2) = files' ->
        Project.files (project (snd (approveProposal env2 w2))) = files').
Proof.
  intros Hp Hf files' newFile.
  destruct (approveProposal_files env w p fileName Hp Hf) as [_ Hfiles].
  fold files' newFile in Hfiles. cbv zeta in Hfiles.
  pose proof (findIndex_after_approval fileName
                (Project.files (project w)) newFile eq_refl) as Hfound.
  cbv zeta in Hfound. rewrite <- Hfiles in Hfound.
  split; [exact Hfound|].
  intros env2 w2 Hp2 Hfiles2.
  destruct (approveProposal_files env2 w2 p fileName Hp2 Hf) as [_ ->].
  rewrite Hfiles2. destruct Hfound as (k & -> & Hk).
  replace (0 <=? Z.of_nat k)%Z with true by (symmetry; apply Z.leb_le; lia).
  rewrite Nat2Z.id. by apply list_insert_id.
Qed.

(** X10: a proposal whose [fileName] is not a string, as the parser makes
    from a block without that field, cannot be approved: the handler raises a
    TypeError before it changes anything, so the checkpoint stays open with
    the same proposal; discarding is the way out. *)
Theorem nameless_proposal_cannot_be_approved (env : Env) (w : World)
    (p : CodeProposal.t) :
  pendingProposal w = Some p ->
  (forall fileName, CodeProposal.fileName p <> JString fileName) ->
  approveProposal env w = (Thrown (Error (typeErrorMessage env)), w)
  /\ pendingProposal (snd (approveProposal env w)) = Some p
  /\ pendingProposal (snd (discardProposal w)) = None.
Proof.
  intros Hp Hf. rewrite (approveProposal_not_a_name env w p Hp Hf).
  split; [done|]. split; [done|]. by destruct w.
Qed.

Lemma includes_refl (s : jsstring) : includes s s = true.
Proof. apply includes_spec. exists [], []. by rewrite app_nil_r. Qed.

Lemma includes_trans (a b c : jsstring) :
  includes a b = true -> includes b c = true -> includes a c = true.
Proof.
  rewrite !includes_spec. intros (x & y & ->) (u & v & ->).
  exists (x ++ u), (v ++ y). by rewrite <- !app_assoc.
Qed.

Lemma includes_app (pre s post needle : jsstring) :
  includes s needle = true -> includes (pre ++ s ++ post) needle = true.
Proof.
  rewrite !includes_spec. intros (u & v & ->).
  exists (pre ++ u), (v ++ post). by rewrite <- !app_assoc.
Qed.

Lemma join_includes (sep x : jsstring) (l : list jsstring) :
  x ∈ l -> includes (join sep l) x = true.
Proof.
  induction l as [|y l IH]; intros Hx; [by apply elem_of_nil in Hx|].
  apply elem_of_cons in Hx as [->|Hx].
  - destruct l as [|z l]; simpl; [apply includes_refl|].
    apply includes_spec. by exists [], (sep ++ join sep (z :: l)).
  - specialize (IH Hx). destruct l as [|z l]; [by apply elem_of_nil in Hx|].
    change (join sep (y :: z :: l)) with (y ++ sep ++ join sep (z :: l)).
    apply includes_spec in IH as (u & v & ->). apply includes_spec.
    exists (y ++ sep ++ u), v. by rewrite <- !app_assoc.
Qed.

Lemma filesContext_includes (p : Project.t) (name : jsstring) :
  name <> [] -> name ∈ file_names p -> includes (filesContext p) name = true.
Proof.
  intros Hname Hin. unfold filesContext.
  pose proof (join_includes (lit ", ") name _ Hin) as Hjoin.
  fold (file_names p). destruct (join (lit ", ") (file_names p)) eqn:E; [|done].
  apply includes_spec in Hjoin as (u & v & Heq).
  destruct u; [destruct name; [done|discriminate]|discriminate].
Qed.

Lemma includes_skip (a s needle : jsstring) :
  includes s needle = true -> includes (a ++ s) needle = true.
Proof.
  intros H. rewrite <- (app_nil_r s). by apply includes_app.
Qed.

Lemma includes_head (s rest : jsstring) : includes (s ++ rest) s = true.
Proof. apply includes_spec. by exists [], rest. Qed.

Lemma systemInstruction_includes (context : jsstring) :
  includes (systemInstruction context) context = true.
Proof.
  unfold systemInstruction.
  do 3 apply includes_skip. apply includes_head.
Qed.

(** X11: approval and the next turn compose: once a proposal with a
    non-empty file name is approved, the workspace summary names that file,
    and so does the system instruction of every conversation request built
    from the project afterwards. *)
Theorem approved_file_reaches_the_conductor (env : Env) (w : World)
    (p : CodeProposal.t) (fileName : jsstring) :
  pendingProposal w = Some p ->
  CodeProposal.fileName p = JString fileName ->
  fileName <> [] ->
  let project' := project (snd (approveProposal env w)) in
  includes (filesContext project') fileName = true
  /\ forall prompt mode config,
       exists instruction,
         GenConfig.systemInstruction
           (Request.config
              (conduct_request prompt (filesContext project') mode config))
         = Some instruction
         /\ includes instruction fileName = true.
Proof.
  intros Hp Hf Hname project'.
  assert (includes (filesContext project') fileName = true) as Hcontext.
  { apply filesContext_includes; [done|]. subst project'.
    unfold file_names.
    destruct (approveProposal_files env w p fileName Hp Hf) as [_ Hfiles].
    pose proof (findIndex_after_approval fileName
                  (Project.files (project w))
                  (ProjectFile.mk fileName (CodeProposal.content p)
                     (language_of fileName)) eq_refl) as (k & _ & Hk).
    rewrite <- Hfiles in Hk. apply list_elem_of_fmap.
    eexists. split; [|by eapply list_elem_of_lookup_2]. done. }
  split; [done|]. intros prompt mode config. eexists. split; [reflexivity|].
  eapply includes_trans; [apply systemInstruction_includes|done].
Qed.

(** ** Sequences of events *)

Lemma approveProposal_cases (env : Env) (w : World) :
  snd (approveProposal env w) = w
  \/ exists p fileName,
       pendingProposal w = Some p /\ CodeProposal.fileName p = JString fileName.
Proof.
  destruct (pendingProposal w) as [p|] eqn:Hp.
  - destruct (CodeProposal.fileName p) eqn:Hf;
      try (left; rewrite (approveProposal_not_a_name env w p Hp); [done|];
           intros fileName; rewrite Hf; discriminate).
    right. by exists p, s.
  - left. destruct_world w. done.
Qed.

Lemma approveProposal_keeps_rest (env : Env) (w : World) :
  isProcessing (snd (approveProposal env w)) = isProcessing w
  /\ same_identity (project (snd (approveProposal env w))) (project w)
  /\ messages w `prefix_of` messages (snd (approveProposal env w))
  /\ activity w `prefix_of` activity (snd (approveProposal env w))
  /\ requests (snd (approveProposal env w)) = requests w.
Proof.
  destruct (approveProposal_cases env w) as [->|(p & fileName & Hp & Hf)].
  { by repeat split. }
  destruct_world w. unfold approveProposal, bind. cbn. rewrite Hf. cbn.
  repeat split; try done; by apply prefix_app_r.
Qed.

Lemma approveProposal_ok (env : Env) (w : World) :
  workspace_ok w -> workspace_ok (snd (approveProposal env w)).
Proof.
  intros (Hnodup & Hlang & Hidle).
  destruct (approveProposal_cases env w) as [->|(p & fileName & Hp & Hf)].
  { done. }
  destruct (approveProposal_keeps_rest env w) as (Hflag & _).
  split; [|split; [|by rewrite Hflag]].
  - unfold file_names.
    destruct (approveProposal_files env w p fileName Hp Hf) as [_ ->].
    set (files := Project.files (project w)) in *.
    destruct (findIndex_case
                (fun f => str_eqb fileName (ProjectFile.name f)) files)
      as [[-> Hnone]|(i & f & -> & Hi & Hf' & _)].
    + cbn. rewrite map_app. apply NoDup_app. split; [done|]. split.
      * intros x Hx Hx'. apply list_elem_of_singleton in Hx' as ->.
        apply list_elem_of_fmap in Hx as (g & Hg & Hin).
        specialize (Hnone g Hin). unfold str_eqb in Hnone.
        by apply bool_decide_eq_false in Hnone.
      * apply NoDup_singleton.
    + replace (0 <=? Z.of_nat i)%Z with true by (symmetry; apply Z.leb_le; lia).
      rewrite Nat2Z.id. unfold str_eqb in Hf'. apply bool_decide_eq_true in Hf'.
      by rewrite (map_name_insert files i f).
  - destruct (approveProposal_files env w p fileName Hp Hf) as [_ ->].
    destruct (0 <=? _)%Z.
    + by apply Forall_insert.
    + apply Forall_app. split; [done|]. by constructor.
Qed.

Lemma handleSendMessage_prefix (env : Env) (w : World) :
  messages w `prefix_of` messages (snd (handleSendMessage env w))
  /\ activity w `prefix_of` activity (snd (handleSendMessage env w))
  /\ requests w `prefix_of` requests (snd (handleSendMessage env w)).
Proof.
  destruct (decide (trim (inputValue w) = [])) as [Hblank|Hinput].
  { by rewrite handleSendMessage_blank. }
  destruct (isProcessing w) eqn:Hidle.
  { by rewrite handleSendMessage_busy. }
  start_turn w.
  explore_turn env wi; rewrite <- ?app_assoc;
    repeat split; first [done|by apply prefix_app_r].
Qed.

Lemma handle_keeps (env : Env) (e : Event) (w : World) :
  (workspace_ok w -> workspace_ok (snd (handle env e w)))
  /\ same_identity (project (snd (handle env e w))) (project w)
  /\ messages w `prefix_of` messages (snd (handle env e w))
  /\ activity w `prefix_of` activity (snd (handle env e w))
  /\ requests w `prefix_of` requests (snd (handle env e w)).
Proof.
  destruct e as [v|m| | |]; simpl.
  - by destruct w.
  - by destruct w.
  - destruct (handleSendMessage_prefix env w) as (Hm & Ha & Hr).
    unfold workspace_ok.
    rewrite (handleSendMessage_project env w).
    destruct (handleSendMessage_completes env w) as [_ ->].
    done.
  - destruct (approveProposal_keeps_rest env w) as (_ & Hid & Hm & Ha & ->).
    split; [apply approveProposal_ok|]. done.
  - by destruct w.
Qed.

Lemma after_cons (env : Env) (e : Event) (events : list Event) (w : World) :
  after env (e :: events) w = after env events (snd (handle env e w)).
Proof. reflexivity. Qed.

(** X12: whatever the user does in the view and whatever the API answers, a
    workspace whose files have pairwise different names and carry the
    language tag of their names keeps both properties, the view is idle
    between events, and the project keeps its id, name and creation
    time. *)
Theorem workspace_invariant (env : Env) (events : list Event) (w : World) :
  workspace_ok w ->
  workspace_ok (after env events w)
  /\ same_identity (project (after env events w)) (project w).
Proof.
  revert w. induction events as [|e events IH]; intros w Hok.
  { split; [exact Hok|by unfold same_identity]. }
  rewrite after_cons.
  destruct (handle_keeps env e w) as (Hstep & (Hid & Hname & Hcreated) & _).
  destruct (IH _ (Hstep Hok)) as (Hok' & (Hid' & Hname' & Hcreated')).
  split; [done|]. repeat split; congruence.
Qed.

(** X13: the chat, the activity log and the trace of requests only grow:
    after any sequence of events each one starts with what it was, so no
    handler removes, reorders or rewrites a message or a log record. *)
Theorem history_is_append_only (env : Env) (events : list Event) (w : World) :
  messages w `prefix_of` messages (after env events w)
  /\ activity w `prefix_of` activity (after env events w)
  /\ requests w `prefix_of` requests (after env events w).
Proof.
  revert w. induction events as [|e events IH]; intros w.
  { done. }
  rewrite after_cons.
  destruct (handle_keeps env e w) as (_ & _ & Hm & Ha & Hr).
  destruct (IH (snd (handle env e w))) as (Hm' & Ha' & Hr').
  repeat split; by etrans.
Qed.

(** ** The heuristic, the fence and the language tag *)

Lemma fold_case_app (a b : jsstring) :
  map fold_case (a ++ b) = map fold_case a ++ map fold_case b.
Proof. apply map_app. Qed.

(** X14: the research heuristic looks for the keywords anywhere in the
    input: an input that matches still matches with any text put before and
    after it; and the alternative [research] never decides, since every
    text that contains it contains [search]. *)
Theorem heuristic_is_substring_search (input : jsstring) :
  (needsResearch input = true ->
   forall before after, needsResearch (before ++ input ++ after) = true)
  /\ needsResearch input
     = existsb (includes (map fold_case input))
         [lit "search"; lit "find"; lit "documentation"; lit "info";
          lit "who is"; lit "what is"].
Proof.
  split.
  - unfold needsResearch. intros H before after.
    apply existsb_exists in H as (k & Hk & Hinc).
    apply existsb_exists. exists k. split; [done|].
    rewrite !fold_case_app. by apply includes_app.
  - unfold needsResearch, research_keywords.
    cbn [existsb].
    destruct (includes (map fold_case input) (lit "research")) eqn:E; [|done].
    cbn [orb]. symmetry.
    replace (includes (map fold_case input) (lit "search")) with true; [done|].
    symmetry. eapply includes_trans; [exact E|]. by vm_compute.
Qed.

(** X15: what the fence search returns really is fenced: when [jsonMatch]
    yields a body, the response is some text, the opening fence, the body,
    the closing fence and some text, with no opening fence starting earlier
    and no closing fence starting earlier after the opening one. *)
Theorem jsonMatch_sound (response body : jsstring) :
  jsonMatch response = Some body ->
  exists pre post,
    response = pre ++ json_fence_open ++ body ++ json_fence_close ++ post
    /\ (forall pre' rest,
          response = pre' ++ json_fence_open ++ rest ->
          length pre <= length pre')
    /\ (forall body' post',
          body ++ json_fence_close ++ post = body' ++ json_fence_close ++ post' ->
          length body <= length body').
Proof.
  unfold jsonMatch.
  destruct (find_sub json_fence_open response) as [[pre rest]|] eqn:Hopen;
    [|done].
  destruct (find_sub json_fence_close rest) as [[b post]|] eqn:Hclose; [|done].
  intros [= ->]. exists pre, post.
  pose proof (find_sub_sound _ _ _ _ Hopen) as ->.
  pose proof (find_sub_sound _ _ _ _ Hclose) as Hrest. subst rest.
  split; [done|]. split.
  - intros pre' rest'. by apply (find_sub_least _ _ _ _ Hopen).
  - intros body' post'. by apply (find_sub_least _ _ _ _ Hclose).
Qed.

Lemma split_segments_no_sep (sep : N) (s : jsstring) :
  Forall (fun seg => sep ∉ seg) (split sep s).
Proof.
  induction s as [|c s IH]; simpl.
  - constructor; [|constructor]. apply not_elem_of_nil.
  - destruct (N.eqb_spec c sep) as [->|Hne].
    + constructor; [apply not_elem_of_nil|done].
    + destruct (split sep s) as [|seg segs].
      * constructor; [|constructor].
        intros [Heq|Hin]%elem_of_cons; [congruence|by apply elem_of_nil in Hin].
      * apply Forall_cons in IH as [Hseg Hsegs]. constructor; [|done].
        intros [Heq|Hin]%elem_of_cons; [congruence|done].
Qed.

Lemma pop_elem_of {A} (l : list A) (x : A) : pop l = Some x -> x ∈ l.
Proof.
  induction l as [|y l IH]; simpl; [done|].
  destruct l as [|z l]; [intros [= ->]; by left|].
  intros H. right. by apply IH.
Qed.

(** X16: the language tag of a file is never empty and never contains a
    dot, whatever the file name. *)
Theorem language_tag_well_formed (fileName : jsstring) :
  language_of fileName <> [] /\ 46%N ∉ language_of fileName.
Proof.
  unfold language_of.
  destruct (pop (split 46 fileName)) as [[|c seg]|] eqn:E; simpl.
  - split; [done|]. by vm_compute; intros H; repeat (apply elem_of_cons in H as [H|H]; [done|]); apply elem_of_nil in H.
  - split; [done|]. apply pop_elem_of in E.
    pose proof (split_segments_no_sep 46 fileName) as Hall.
    rewrite Forall_forall in Hall. by apply Hall.
  - split; [done|]. by vm_compute; intros H; repeat (apply elem_of_cons in H as [H|H]; [done|]); apply elem_of_nil in H.
Qed.

(** ** The page around the view *)

Lemma find_id_map (aid : jsstring) (p p' : Project.t) (l : list Project.t) :
  List.find (fun q => str_eqb (Project.id q) aid) l = Some p ->
  Project.id p' = Project.id p ->
  List.find (fun q => str_eqb (Project.id q) aid)
    (map (fun q => if str_eqb (Project.id q) (Project.id p') then p' else q) l)
  = Some p'.
Proof.
  intros Hfind Hid.
  assert (Project.id p = aid) as <-.
  { apply List.find_some in Hfind as [_ H]. unfold str_eqb in H.
    by apply bool_decide_eq_true in H. }
  destruct p' as [i' n' f' c']. cbn in Hid. subst i'. cbn [Project.id].
  induction l as [|q l IH]; [done|]. cbn in *.
  destruct (str_eqb (Project.id q) (Project.id p)) eqn:Hq; cbn.
  - unfold str_eqb. by rewrite bool_decide_eq_true_2.
  - rewrite Hq. by apply IH.
Qed.

(** X17: [updateProject] keeps the list of projects in shape: the ids, in
    order, are what they were, a project with another id is left as it is,
    an update for an id that no project has changes nothing, and neither the
    selection nor the activity log is touched. *)
Theorem update_project_keeps_the_list (updated : Project.t) (s : App.State) :
  let s' := App.updateProject updated s in
  map Project.id (App.projects s') = map Project.id (App.projects s)
  /\ (forall i q,
        App.projects s !! i = Some q ->
        Project.id q <> Project.id updated ->
        App.projects s' !! i = Some q)
  /\ (Project.id updated ∉ map Project.id (App.projects s) -> s' = s)
  /\ App.activeProjectId s' = App.activeProjectId s
  /\ App.activity s' = App.activity s.
Proof.
  cbv zeta. destruct s as [ps aid act cfg n k]. unfold App.updateProject. cbn.
  split; [|split; [|split; [|done]]].
  - induction ps as [|q ps IH]; [done|]. cbn. rewrite IH. f_equal.
    unfold str_eqb. case_bool_decide; by subst.
  - intros i q Hi Hne. rewrite list_lookup_fmap, Hi. cbn.
    unfold str_eqb. by rewrite bool_decide_eq_false_2.
  - intros Hnew. f_equal. induction ps as [|q ps IH]; [done|]. cbn.
    cbn in Hnew. apply not_elem_of_cons in Hnew as [Hq Hps].
    rewrite IH by done. unfold str_eqb.
    by rewrite bool_decide_eq_false_2 by congruence.
Qed.

(** X18: the view and the page fit together: when the view shows the active
    project and a proposal with a file name is approved, passing the view's
    new project to the page's [updateProject] makes it the active project,
    so the view is given next exactly the project its handler built. *)
Theorem approval_updates_the_active_project (env : Env) (w : World)
    (s : App.State) (p : CodeProposal.t) (fileName : jsstring) :
  App.activeProject s = Some (project w) ->
  pendingProposal w = Some p ->
  CodeProposal.fileName p = JString fileName ->
  let project' := project (snd (approveProposal env w)) in
  App.activeProject (App.updateProject project' s) = Some project'.
Proof.
  intros Hactive Hp Hf project'.
  assert (Project.id project' = Project.id (project w)) as Hid.
  { subst project'. destruct_world w.
    unfold approveProposal, bind. cbn. rewrite Hf. by cbn. }
  destruct s as [ps aid act cfg n k]. unfold App.activeProject in *. cbn in *.
  destruct aid as [aid|]; [|done]. by apply (find_id_map aid (project w)).
Qed.

Lemma find_app_l {A} (f : A -> bool) (l k : list A) (x : A) :
  List.find f l = Some x -> List.find f (l ++ k) = Some x.
Proof.
  induction l as [|y l IH]; simpl; [done|]. destruct (f y); auto.
Qed.

Lemma find_app_fresh {A} (f : A -> bool) (l : list A) (x : A) :
  (forall y, y ∈ l -> f y = false) -> f x = true ->
  List.find f (l ++ [x]) = Some x.
Proof.
  intros Hl Hx. induction l as [|y l IH]; simpl; [by rewrite Hx|].
  rewrite (Hl y) by (by left). apply IH. intros z Hz. apply Hl. by right.
Qed.

(** X19: creating a project: a cancelled or empty prompt changes nothing;
    otherwise one project with no files, the upper-cased name and an id of
    at most nine characters is added after the existing ones, which are left
    alone, one success record of the Conductor is logged, and the new id is
    selected.  The new project is then the active one when its id is new;
    should an older project have the same id, that one is shown instead. *)
Theorem new_project (env : Env) (host : App.Host) (s : App.State) :
  (App.prompt host = None \/ App.prompt host = Some [] ->
   App.handleNewProject env host s = s)
  /\ (forall name,
        App.prompt host = Some name -> name <> [] ->
        let s' := App.handleNewProject env host s in
        exists new,
          App.projects s' = App.projects s ++ [new]
          /\ Project.files new = []
          /\ Project.name new = App.toUpperCase host name
          /\ length (Project.id new) <= 9
          /\ App.activeProjectId s' = Some (Project.id new)
          /\ (Project.id new ∉ map Project.id (App.projects s) ->
              App.activeProject s' = Some new)
          /\ (forall old,
                List.find (fun q => str_eqb (Project.id q) (Project.id new))
                  (App.projects s) = Some old ->
                App.activeProject s' = Some old)
          /\ exists id t,
               App.activity s' =
                 App.activity s
                 ++ [ActivityLog.mk id t Conductor
                       (lit "Project workspace initialized: "
                        ++ App.toUpperCase host name) LogType.success]).
Proof.
  split.
  - intros [H|H]; unfold App.handleNewProject; by rewrite H.
  - intros name Hprompt Hname s'. subst s'.
    unfold App.handleNewProject. rewrite Hprompt.
    destruct name as [|c name]; [done|].
    eexists. split; [reflexivity|]. cbn.
    split; [done|]. split; [done|].
    split; [unfold App.substr; rewrite length_take; lia|].
    split; [done|]. unfold App.activeProject. cbn.
    split; [|split; [|by eexists _, _]].
    + intros Hfresh. apply find_app_fresh.
      * intros q Hq. unfold str_eqb. apply bool_decide_eq_false_2.
        intros Heq. apply Hfresh. rewrite <- Heq.
        apply list_elem_of_fmap. by exists q.
      * unfold str_eqb. by apply bool_decide_eq_true_2.
    + intros old Hold. by apply find_app_l.
Qed.

(** ** The further properties at work on the sample runs *)

Lemma demo_world_ok (input : jsstring) (pending : option CodeProposal.t)
    (report : option jsstring) :
  workspace_ok (demo_world input pending report).
Proof.
  split; [|split; [|done]].
  - apply (bool_decide_unpack _). by vm_compute.
  - repeat constructor.
Qed.

Lemma send_disabled_iff_noop_witness :
  let w := demo_world (lit "  ") (Some utils_proposal) None in
  sendDisabled w = true /\ handleSendMessage env_proposing w = (Normal tt, w).
Proof.
  destruct (send_disabled_iff_noop env_proposing
              (demo_world (lit "  ") (Some utils_proposal) None))
    as [[Hnoop _] Hwhite].
  assert (sendDisabled (demo_world (lit "  ") (Some utils_proposal) None) = true)
    as Hdisabled by (apply Hwhite; repeat constructor).
  split; [exact Hdisabled|exact (Hnoop Hdisabled)].
Defined.

Lemma answered_turn_messages_witness :
  let w := demo_world (lit "add an id helper") None None in
  let w' := snd (handleSendMessage env_proposing w) in
  (exists id1 id2,
     messages w' =
       [ChatMessage.mk id1 user (lit "add an id helper") None;
        ChatMessage.mk id2 assistant
          (lit "Here is the change." ++ LF ++ fenced utils_block ++ LF
           ++ lit "and a second one" ++ LF ++ fenced notes_block)
          (Some utils_proposal)])
  /\ inputValue w' = [].
Proof.
  assert (trim (lit "add an id helper") <> []) as Hinput by (by vm_compute).
  destruct (answered_turn_messages env_proposing
              (demo_world (lit "add an id helper") None None)
              proposing_response eq_refl Hinput (fun _ _ _ => eq_refl))
    as (Hmessages & Hbox & _).
  split; [exact Hmessages|exact Hbox].
Defined.

Lemma validation_iff_proposal_witness :
  (let w := demo_world (lit "add an id helper") None None in
   let w' := snd (handleSendMessage env_proposing w) in
   calls reviewArtifact (new_requests w w') = 1
   /\ exists earlier,
        requests w' =
          earlier ++ [validate_request (JString (lit "export const id = 1"))
                        (JString (lit "add id")) initial_config])
  /\ (let w := demo_world (lit "add a helper") None None in
      let w' := snd (handleSendMessage env_opaque_content w) in
      calls reviewArtifact (new_requests w w') = 0
      /\ validationReport w' = Some validation_timed_out
      /\ pendingProposal w' = Some opaque_proposal).
Proof.
  split.
  - assert (trim (lit "add an id helper") <> []) as Hinput by (by vm_compute).
    pose proof (validation_iff_proposal env_proposing
                  (demo_world (lit "add an id helper") None None)
                  proposing_response eq_refl Hinput (fun _ _ _ => eq_refl))
      as Hturn.
    change (parse_proposal (Response.text proposing_response))
      with (Proposed utils_proposal) in Hturn.
    destruct Hturn as (Hsent & _).
    destruct (Hsent eq_refl eq_refl) as (Hcalls & Hlast & _).
    split; [exact Hcalls|exact Hlast].
  - assert (trim (lit "add a helper") <> []) as Hinput by (by vm_compute).
    pose proof (validation_iff_proposal env_opaque_content
                  (demo_world (lit "add a helper") None None)
                  opaque_response eq_refl Hinput (fun _ _ _ => eq_refl))
      as Hturn.
    change (parse_proposal (Response.text opaque_response))
      with (Proposed opaque_proposal) in Hturn.
    destruct Hturn as (_ & Hraised & Hpending).
    destruct (Hraised (or_intror eq_refl)) as (Hcalls & Hreport).
    repeat split; assumption.
Defined.

Lemma research_feeds_the_conversation_witness :
  let w := demo_world (lit "What is the Rocq Prover?") None None in
  researchSources (snd (handleSendMessage env_grounded w))
  = [rocq_source; mdn_source].
Proof.
  assert (trim (lit "What is the Rocq Prover?") <> []) as Hinput
    by (by vm_compute).
  destruct (research_feeds_the_conversation env_grounded
              (demo_world (lit "What is the Rocq Prover?") None None)
              eq_refl Hinput) as (Hfound & _).
  destruct (Hfound eq_refl grounded_response) as (Hsources & _).
  - intros n req Hop. cbn. by rewrite Hop.
  - exact Hsources.
Defined.

Lemma approve_view_effects_witness :
  let w := demo_world [] (Some utils_proposal) (Some (lit "Looks right.")) in
  let w' := snd (approveProposal env_offline w) in
  pendingProposal w' = None /\ validationReport w' = None
  /\ requests w' = [].
Proof.
  destruct (approve_view_effects env_offline
              (demo_world [] (Some utils_proposal) (Some (lit "Looks right."))))
    as (Happroved & _).
  destruct (Happroved utils_proposal (lit "utils.ts") eq_refl eq_refl)
    as (_ & Hpending & Hreport & _ & _ & Hrequests & _).
  repeat split; assumption.
Defined.

Lemma approve_keeps_names_witness :
  file_names
    (project (snd (approveProposal env_offline
                     (demo_world [] (Some utils_proposal) None))))
  = [lit "README.md"; lit "utils.ts"]
  /\ file_names
       (project (snd (approveProposal env_offline
                        (demo_world [] (Some notes_proposal) None))))
     = [lit "README.md"; lit "utils.ts"; lit "notes."].
Proof.
  split.
  - exact (proj1 (approve_keeps_names env_offline
                    (demo_world [] (Some utils_proposal) None)
                    utils_proposal (lit "utils.ts") eq_refl eq_refl)).
  - exact (proj1 (approve_keeps_names env_offline
                    (demo_world [] (Some notes_proposal) None)
                    notes_proposal (lit "notes.") eq_refl eq_refl)).
Defined.

Lemma approve_then_lookup_witness :
  let w := demo_world [] (Some utils_proposal) None in
  let files' := Project.files (project (snd (approveProposal env_offline w))) in
  exists k,
    findIndex (fun f => str_eqb (lit "utils.ts") (ProjectFile.name f)) files'
    = Z.of_nat k
    /\ files' !! k
       = Some (ProjectFile.mk (lit "utils.ts")
                 (JString (lit "export const id = 1")) (lit "ts")).
Proof.
  exact (proj1 (approve_then_lookup env_offline
                  (demo_world [] (Some utils_proposal) None)
                  utils_proposal (lit "utils.ts") eq_refl eq_refl)).
Defined.

Lemma nameless_proposal_cannot_be_approved_witness :
  let w := snd (handleSendMessage env_bare_action
                  (demo_world (lit "add a helper") None None)) in
  pendingProposal w = Some bare_proposal
  /\ approveProposal env_bare_action w
     = (Thrown (Error (typeErrorMessage env_bare_action)), w).
Proof.
  split; [reflexivity|].
  apply (nameless_proposal_cannot_be_approved env_bare_action
           (snd (handleSendMessage env_bare_action
                   (demo_world (lit "add a helper") None None)))
           bare_proposal eq_refl).
  intros fileName. discriminate.
Defined.

Lemma approved_file_reaches_the_conductor_witness :
  let w := demo_world [] (Some notes_proposal) None in
  includes (filesContext (project (snd (approveProposal env_offline w))))
    (lit "notes.") = true.
Proof.
  assert (lit "notes." <> []) as Hname by (by vm_compute).
  exact (proj1 (approved_file_reaches_the_conductor env_offline
                  (demo_world [] (Some notes_proposal) None)
                  notes_proposal (lit "notes.") eq_refl eq_refl Hname)).
Defined.

Lemma workspace_invariant_witness :
  let w := after env_proposing demo_events (demo_world [] None None) in
  NoDup (file_names (project w))
  /\ isProcessing w = false
  /\ Project.id (project w) = lit "k3j9x0q2a".
Proof.
  destruct (workspace_invariant env_proposing demo_events
              (demo_world [] None None) (demo_world_ok [] None None))
    as ((Hnames & _ & Hidle) & (Hid & _)).
  repeat split; assumption.
Defined.

Lemma heuristic_is_substring_search_witness :
  needsResearch (lit "Please FIND the docs for me") = true.
Proof.
  apply (proj1 (heuristic_is_substring_search (lit "FIND"))
           eq_refl (lit "Please ") (lit " the docs for me")).
Defined.

Lemma jsonMatch_sound_witness :
  exists pre post,
    lit "Done." ++ LF ++ fenced utils_block
    = pre ++ json_fence_open ++ utils_block ++ json_fence_close ++ post.
Proof.
  destruct (jsonMatch_sound (lit "Done." ++ LF ++ fenced utils_block)
              utils_block eq_refl) as (pre & post & Hshape & _).
  exists pre, post. exact Hshape.
Defined.

Lemma update_project_keeps_the_list_witness :
  App.updateProject (Project.mk (lit "nosuchid") (lit "GHOST") [] 0) demo_app
  = demo_app.
Proof.
  apply (update_project_keeps_the_list
           (Project.mk (lit "nosuchid") (lit "GHOST") [] 0) demo_app).
  apply (bool_decide_unpack _). by vm_compute.
Defined.

Lemma approval_updates_the_active_project_witness :
  let w := demo_world [] (Some utils_proposal) None in
  let project' := project (snd (approveProposal env_offline w)) in
  App.activeProject (App.updateProject project' demo_app) = Some project'.
Proof.
  exact (approval_updates_the_active_project env_offline
           (demo_world [] (Some utils_proposal) None) demo_app
           utils_proposal (lit "utils.ts") eq_refl eq_refl eq_refl).
Defined.

Lemma new_project_witness :
  App.handleNewProject env_offline (demo_host None) demo_app = demo_app
  /\ exists new,
       App.projects
         (App.handleNewProject env_offline (demo_host (Some (lit "demo two")))
            empty_app) = [new]
       /\ Project.name new = lit "DEMO TWO".
Proof.
  split.
  - apply (new_project env_offline (demo_host None) demo_app). by left.
  - assert (lit "demo two" <> []) as Hname by (by vm_compute).
    destruct (proj2 (new_project env_offline (demo_host (Some (lit "demo two")))
                       empty_app) (lit "demo two") eq_refl Hname)
      as (new & Hprojects & _ & Hnew & _).
    exists new. split; [exact Hprojects|]. rewrite Hnew. reflexivity.
Defined.
